(** * cf_ai_baseball: the Worker's request pipeline

    A shallow embedding of [src/workers/agent.ts]: the [fetch] handler, the
    SQL synthesizer [generateSQL], the query executor [executeQuery], the
    response composer [formatResponse] and its deterministic fallback
    [formatSimple] / [formatTable], and [jsonResponse].

    Conventions of the embedding.
    - A JavaScript string is the list of its UTF-16 code units.
    - A JavaScript number is an IEEE binary64 value, kept as an exact dyadic
      rational; the built-ins the Worker calls on numbers ([toString],
      [toFixed], [parseFloat]) are written out after ECMA-262.
    - The two outbound services (the Workers AI binding and the D1 binding)
      are calls of a small free monad; an environment answers them and
      records the trace of calls.
    - A thrown value is what the two [catch] blocks that read
      [error.message] can learn of it: the primitive its [message] holds,
      or that reading it throws, as on [null] and [undefined].
    - Console output is diagnostic only and is not modelled. *)

From Stdlib Require Import List NArith ZArith QArith Qround Bool Lia.
From Stdlib Require Import Permutation.
From Stdlib Require Import Ascii String.
Import ListNotations.

Set Implicit Arguments.
Set Warnings "-register-all".

(* ================================================================== *)
(** ** Strings as sequences of UTF-16 code units *)
(* ================================================================== *)

Module JsString.

Definition code_unit := N.
Definition jsstring := list code_unit.

(** An ASCII literal of the source, as code units. *)
Definition lit (s : string) : jsstring :=
  map N_of_ascii (list_ascii_of_string s).

Definition dquote : jsstring := [34%N].
Definition newline : jsstring := [10%N].

Fixpoint jsstring_eqb (a b : jsstring) : bool :=
  match a, b with
  | [], [] => true
  | x :: a', y :: b' => N.eqb x y && jsstring_eqb a' b'
  | _, _ => false
  end.

(** [Array.prototype.join] on an array of strings. *)
Fixpoint join (sep : jsstring) (parts : list jsstring) : jsstring :=
  match parts with
  | [] => []
  | [p] => p
  | p :: rest => p ++ sep ++ join sep rest
  end.

(** [strip_prefix p s] is [Some r] when [s = p ++ r]. *)
Fixpoint strip_prefix (p s : jsstring) : option jsstring :=
  match p, s with
  | [], _ => Some s
  | _ :: _, [] => None
  | x :: p', y :: s' => if N.eqb x y then strip_prefix p' s' else None
  end.

Definition starts_with (p s : jsstring) : bool :=
  match strip_prefix p s with Some _ => true | None => false end.

(** [String.prototype.includes]: does [p] occur in [s]. *)
Fixpoint includes (s p : jsstring) : bool :=
  starts_with p s ||
  match s with
  | [] => false
  | _ :: s' => includes s' p
  end.

(** [String.prototype.endsWith]. *)
Definition endsWith (s p : jsstring) : bool :=
  starts_with (rev p) (rev s).

(** WhiteSpace and LineTerminator code points (ECMA-262 12.2, 12.3): what
    [String.prototype.trim] removes. *)
Definition is_white_space (c : code_unit) : bool :=
  ((9 <=? c) && (c <=? 13) || (c =? 32) || (c =? 160) || (c =? 5760)
   || (8192 <=? c) && (c <=? 8202) || (c =? 8232) || (c =? 8233)
   || (c =? 8239) || (c =? 8287) || (c =? 12288) || (c =? 65279))%N.

Fixpoint trimStart (s : jsstring) : jsstring :=
  match s with
  | [] => []
  | c :: s' => if is_white_space c then trimStart s' else s
  end.

Definition trimEnd (s : jsstring) : jsstring := rev (trimStart (rev s)).

Definition trim (s : jsstring) : jsstring := trimEnd (trimStart s).

(** [s.replace(re, '')] for a global regular expression without empty
    matches.  [matcher s] tries the expression at the start of [s] and returns
    the text after the match; the scan goes left to right, and after a match
    it resumes behind it (matches do not overlap). *)
Fixpoint replace_all_fuel (matcher : jsstring -> option jsstring)
         (fuel : nat) (s : jsstring) : jsstring :=
  match fuel with
  | O => s
  | S fuel' =>
      match matcher s with
      | Some rest => replace_all_fuel matcher fuel' rest
      | None =>
          match s with
          | [] => []
          | c :: s' => c :: replace_all_fuel matcher fuel' s'
          end
      end
  end.

Definition replace_all (matcher : jsstring -> option jsstring)
           (s : jsstring) : jsstring :=
  replace_all_fuel matcher (S (List.length s)) s.

(** A literal followed by an optional line feed: the shape of both
    expressions of [generateSQL], [/```sql\n?/] and [/```\n?/]. *)
Definition match_literal_opt_newline (p : jsstring) (s : jsstring)
  : option jsstring :=
  match strip_prefix p s with
  | Some (10%N :: rest) => Some rest
  | Some rest => Some rest
  | None => None
  end.

End JsString.
Import JsString.

(* ================================================================== *)
(** ** Numbers: IEEE binary64 values and the built-ins used on them *)
(* ================================================================== *)

Module JsNumber.

(** [Finite neg m e] denotes the binary64 value nearest to
    [(-1)^neg * m * 2^e]; every double is of this form with [m < 2^53]. *)
Inductive number :=
| NaN
| Infinity (neg : bool)
| Finite (neg : bool) (m : N) (e : Z).

Definition of_Z (z : Z) : number := Finite (z <? 0)%Z (Z.abs_N z) 0.

Definition pow2 (e : Z) : Q := Qpower (2 # 1) e.
Definition pow10 (e : Z) : Q := Qpower (10 # 1) e.

Definition magnitude (m : N) (e : Z) : Q := inject_Z (Z.of_N m) * pow2 e.

(** Nearest integer to a non-negative rational, ties to the even one. *)
Definition round_half_even (t : Q) : Z :=
  let f := Qfloor t in
  match Qcompare (t - inject_Z f) (1 # 2) with
  | Lt => f
  | Gt => (f + 1)%Z
  | Eq => if Z.even f then f else (f + 1)%Z
  end.

(** The exponent [e] of the binade of [q > 0]: [2^52 <= q / 2^e < 2^53],
    not below the subnormal exponent. *)
Definition binade (q : Q) : Z :=
  let e0 := (Z.log2 (Qnum q) - Z.log2 (Zpos (Qden q)) - 53)%Z in
  let e := if Qle_bool (pow2 53) (q / pow2 e0) then (e0 + 1)%Z else e0 in
  Z.max e (-1074).

(** Round-to-nearest-even of [(-1)^neg * q], for [q >= 0], to binary64. *)
Definition round_double (neg : bool) (q : Q) : number :=
  if (Qnum q <=? 0)%Z then Finite neg 0 0
  else
    let e := binade q in
    let m := round_half_even (q / pow2 e) in
    if (m =? 0)%Z then Finite neg 0 0
    else
      let m' := if (m =? 2 ^ 53)%Z then (2 ^ 52)%Z else m in
      let e' := if (m =? 2 ^ 53)%Z then (e + 1)%Z else e in
      if (971 <? e')%Z then Infinity neg else Finite neg (Z.to_N m') e'.

(** The canonical representative of the double a [number] denotes. *)
Definition canon (x : number) : number :=
  match x with
  | Finite neg m e => round_double neg (magnitude m e)
  | _ => x
  end.

Definition number_eqb (x y : number) : bool :=
  match x, y with
  | NaN, NaN => true
  | Infinity a, Infinity b => Bool.eqb a b
  | Finite a m e, Finite b m' e' => Bool.eqb a b && (m =? m')%N && (e =? e')%Z
  | _, _ => false
  end.

(** ToBoolean of a number: false for [+0], [-0] and [NaN]. *)
Definition number_truthy (x : number) : bool :=
  match canon x with
  | NaN => false
  | Infinity _ => true
  | Finite _ m _ => negb (m =? 0)%N
  end.

(** *** Decimal digits *)

Fixpoint uint_units (u : Decimal.uint) : jsstring :=
  match u with
  | Decimal.Nil => []
  | Decimal.D0 u' => 48%N :: uint_units u'
  | Decimal.D1 u' => 49%N :: uint_units u'
  | Decimal.D2 u' => 50%N :: uint_units u'
  | Decimal.D3 u' => 51%N :: uint_units u'
  | Decimal.D4 u' => 52%N :: uint_units u'
  | Decimal.D5 u' => 53%N :: uint_units u'
  | Decimal.D6 u' => 54%N :: uint_units u'
  | Decimal.D7 u' => 55%N :: uint_units u'
  | Decimal.D8 u' => 56%N :: uint_units u'
  | Decimal.D9 u' => 57%N :: uint_units u'
  end.

(** The decimal representation of a natural number, without leading zeros. *)
Definition digits_of_N (n : N) : jsstring := uint_units (N.to_uint n).

Definition is_digit (c : code_unit) : bool := ((48 <=? c) && (c <=? 57))%N.

Definition zeros (n : nat) : jsstring := repeat 48%N n.

(** *** Number::toString (radix 10), ECMA-262 6.1.6.1.20 *)

(** The [n] with [10^(n-1) <= q < 10^n], for [q > 0]. *)
Definition decimal_exponent (q : Q) : Z :=
  if Qle_bool 1 q
  then Z.of_nat (List.length (digits_of_N (Z.to_N (Qfloor q))))
  else (1 - Z.of_nat (List.length
                        (digits_of_N (Z.to_N (Qceiling (/ q) - 1)))))%Z.

Definition round_trips (x : number) (s scale : Z) : bool :=
  number_eqb (round_double false (inject_Z s * pow10 scale)) x.

(** Step 5: integers [n], [k], [s] with [k >= 1], [10^(k-1) <= s < 10^k],
    [s * 10^(n-k)] rounding to [x], and [k] as small as possible; among the
    candidates of that length the one nearest to [x].  The search tries
    [k = 1, 2, ...]; a double is reached with [k <= 17].  Returns [(s, n)]. *)
Fixpoint shortest_decimal (fuel : nat) (k : Z) (x : number) (q : Q) (n0 : Z)
  : Z * Z :=
  let t := q / pow10 (n0 - k) in
  let lo := Qfloor t in
  let hi := (lo + 1)%Z in
  match fuel with
  | O => (lo, n0)
  | S fuel' =>
      let up := if (hi =? 10 ^ k)%Z then (1%Z, (n0 + 1)%Z) else (hi, n0) in
      match round_trips x lo (n0 - k), round_trips x hi (n0 - k) with
      | true, false => (lo, n0)
      | false, true => up
      | true, true =>
          match Qcompare (t - inject_Z lo) (inject_Z hi - t) with
          | Lt => (lo, n0)
          | Gt => up
          | Eq => if Z.even lo then (lo, n0) else up
          end
      | false, false => shortest_decimal fuel' (k + 1) x q n0
      end
  end.

(** Steps 6 to 12: lay out the digits of [s] for the exponent [n]. *)
Definition layout_decimal (s n : Z) : jsstring :=
  let ds := digits_of_N (Z.to_N s) in
  let k := Z.of_nat (List.length ds) in
  if ((-5 <=? n) && (n <=? 21))%Z then
    if (k <=? n)%Z then ds ++ zeros (Z.to_nat (n - k))
    else if (0 <? n)%Z then
      firstn (Z.to_nat n) ds ++ lit "." ++ skipn (Z.to_nat n) ds
    else lit "0." ++ zeros (Z.to_nat (- n)) ++ ds
  else
    let e := (n - 1)%Z in
    let sign := if (e <? 0)%Z then lit "-" else lit "+" in
    let mant := if (k =? 1)%Z then ds
                else firstn 1 ds ++ lit "." ++ skipn 1 ds in
    mant ++ lit "e" ++ sign ++ digits_of_N (Z.abs_N e).

Definition Number_toString (x : number) : jsstring :=
  match canon x with
  | NaN => lit "NaN"
  | Infinity neg => (if neg then lit "-" else []) ++ lit "Infinity"
  | Finite neg m e =>
      if (m =? 0)%N then lit "0"
      else
        let q := magnitude m e in
        let '(s, n) :=
          shortest_decimal 17 1 (Finite false m e) q (decimal_exponent q) in
        (if neg then lit "-" else []) ++ layout_decimal s n
  end.

(** *** Number.prototype.toFixed, ECMA-262 21.1.3.3, at fractionDigits = 2 *)

Definition fixed_digits (n : N) (f : nat) : jsstring :=
  let m := digits_of_N n in
  let m := zeros (S f - List.length m) ++ m in
  let k := List.length m in
  firstn (k - f) m ++ lit "." ++ skipn (k - f) m.

Definition Number_toFixed2 (x : number) : jsstring :=
  match canon x with
  | Finite neg m e =>
      let q := magnitude m e in
      let s := if neg && negb (m =? 0)%N then lit "-" else [] in
      if Qle_bool (pow10 21) q
      then s ++ Number_toString (Finite false m e)
      else s ++ fixed_digits (Z.to_N (Qfloor (q * (100 # 1) + (1 # 2)))) 2
  | other => Number_toString other
  end.

(** *** parseFloat, ECMA-262 19.2.4 *)

Fixpoint span_digits (s : jsstring) : jsstring * jsstring :=
  match s with
  | c :: s' =>
      if is_digit c
      then let '(ds, rest) := span_digits s' in (c :: ds, rest)
      else ([], s)
  | [] => ([], [])
  end.

Definition N_of_digits (ds : jsstring) : N :=
  fold_left (fun acc c => (10 * acc + (c - 48))%N) ds 0%N.

(** ExponentPart: [e] or [E], an optional sign, at least one digit. *)
Definition parse_exponent (s : jsstring) : Z :=
  match s with
  | c :: s' =>
      if ((c =? 101) || (c =? 69))%N then
        let '(neg, s'') :=
          match s' with
          | 43%N :: r => (false, r)
          | 45%N :: r => (true, r)
          | _ => (false, s')
          end in
        match fst (span_digits s'') with
        | [] => 0%Z
        | ds => let v := Z.of_N (N_of_digits ds) in if neg then (- v)%Z else v
        end
      else 0%Z
  | [] => 0%Z
  end.

(** StrUnsignedDecimalLiteral: the longest prefix of [s] that is one. *)
Definition parse_unsigned (neg : bool) (s : jsstring) : number :=
  if starts_with (lit "Infinity") s then Infinity neg
  else
    let '(ip, r1) := span_digits s in
    let '(fp, r2) :=
      match r1 with
      | 46%N :: r => span_digits r
      | _ => ([], r1)
      end in
    match ip, fp with
    | [], [] => NaN
    | _, _ =>
        let ex := parse_exponent r2 in
        let mv := inject_Z (Z.of_N (N_of_digits (ip ++ fp)))
                  * pow10 (ex - Z.of_nat (List.length fp)) in
        round_double neg mv
    end.

Definition parseFloat (input : jsstring) : number :=
  match trimStart input with
  | 43%N :: s => parse_unsigned false s
  | 45%N :: s => parse_unsigned true s
  | s => parse_unsigned false s
  end.

End JsNumber.
Import JsNumber.

(* ================================================================== *)
(** ** Query results: rows of column values, and JSON.stringify *)
(* ================================================================== *)

Module JsValue.

(** A column value as D1 delivers it: a string, a number or null. *)
Inductive colval :=
| VNull
| VNum (n : number)
| VStr (s : jsstring).

(** A row object: its own properties in the order [Object.keys] lists them. *)
Definition row := list (jsstring * colval).

Definition keys (r : row) : list jsstring := map fst r.

(** The own property [key] of a row; [None] when the row has none, which
    reads as [undefined].  This is what [row[key]] gives for a key of the
    row, and what [row.nameFirst] and the like give, [Object.prototype]
    having no member of these names; for an arbitrary key see [row_get]. *)
Fixpoint lookup (r : row) (key : jsstring) : option colval :=
  match r with
  | [] => None
  | (k, v) :: r' => if jsstring_eqb k key then Some v else lookup r' key
  end.

(** The names every object inherits from [Object.prototype]. *)
Definition Object_prototype_names : list jsstring :=
  [ lit "constructor"; lit "__defineGetter__"; lit "__defineSetter__";
    lit "hasOwnProperty"; lit "__lookupGetter__"; lit "__lookupSetter__";
    lit "isPrototypeOf"; lit "propertyIsEnumerable"; lit "toString";
    lit "valueOf"; lit "__proto__"; lit "toLocaleString" ].

(** What [row[key]] gives for an arbitrary [key]: the row's own column, else
    the member of that name the row inherits from [Object.prototype], else
    [undefined]. *)
Inductive member :=
| Column (v : colval)
| Builtin (name : jsstring)
| Undefined.

Definition row_get (r : row) (key : jsstring) : member :=
  match lookup r key with
  | Some v => Column v
  | None =>
      if existsb (jsstring_eqb key) Object_prototype_names
      then Builtin key else Undefined
  end.

(** [String(Object.prototype[name])] on V8, the engine of the Worker:
    [__proto__] reads as the prototype object itself, every other name as a
    native function, [constructor] being [Object]. *)
Definition builtin_text (name : jsstring) : jsstring :=
  if jsstring_eqb name (lit "__proto__") then lit "[object Object]"
  else if jsstring_eqb name (lit "constructor")
  then lit "function Object() { [native code] }"
  else lit "function " ++ name ++ lit "() { [native code] }".

(** ToString, as applied by template literals, [String(v)] and the string
    argument of [parseFloat]. *)
Definition ToString (v : option colval) : jsstring :=
  match v with
  | None => lit "undefined"
  | Some VNull => lit "null"
  | Some (VNum n) => Number_toString n
  | Some (VStr s) => s
  end.

(** ToBoolean. *)
Definition truthy (v : option colval) : bool :=
  match v with
  | None | Some VNull => false
  | Some (VNum n) => number_truthy n
  | Some (VStr s) => match s with [] => false | _ => true end
  end.

(** A primitive value other than a symbol or a bigint. *)
Inductive primitive :=
| PUndefined
| PNull
| PBool (b : bool)
| PNum (n : number)
| PStr (s : jsstring).

(** ToString of a primitive, as a template literal applies it. *)
Definition primitive_ToString (v : primitive) : jsstring :=
  match v with
  | PUndefined => lit "undefined"
  | PNull => lit "null"
  | PBool true => lit "true"
  | PBool false => lit "false"
  | PNum n => Number_toString n
  | PStr s => s
  end.

(** ToBoolean of a primitive. *)
Definition ToBoolean (v : primitive) : bool :=
  match v with
  | PUndefined | PNull => false
  | PBool b => b
  | PNum n => number_truthy n
  | PStr s => match s with [] => false | _ => true end
  end.

(** The data handed to [JSON.stringify]. *)
Inductive json :=
| JNull
| JBool (b : bool)
| JNum (n : number)
| JStr (s : jsstring)
| JArr (items : list json)
| JObj (members : list (jsstring * json)).

Definition json_of_colval (v : colval) : json :=
  match v with
  | VNull => JNull
  | VNum n => JNum n
  | VStr s => JStr s
  end.

Definition json_of_row (r : row) : json :=
  JObj (map (fun kv => (fst kv, json_of_colval (snd kv))) r).

Definition json_of_rows (rs : list row) : json := JArr (map json_of_row rs).

(** A property holding a primitive, as [JSON.stringify] writes it in an
    object: a property that is [undefined] is left out. *)
Definition json_member (name : jsstring) (v : primitive)
  : list (jsstring * json) :=
  match v with
  | PUndefined => []
  | PNull => [(name, JNull)]
  | PBool b => [(name, JBool b)]
  | PNum n => [(name, JNum n)]
  | PStr s => [(name, JStr s)]
  end.

Definition hex_digit (n : N) : code_unit :=
  if (n <? 10)%N then (48 + n)%N else (87 + n)%N.

Definition unicode_escape (c : code_unit) : jsstring :=
  lit "\u" ++ [hex_digit (c / 4096 mod 16); hex_digit (c / 256 mod 16);
               hex_digit (c / 16 mod 16); hex_digit (c mod 16)]%N.

Definition is_leading_surrogate (c : code_unit) : bool :=
  ((55296 <=? c) && (c <=? 56319))%N.
Definition is_trailing_surrogate (c : code_unit) : bool :=
  ((56320 <=? c) && (c <=? 57343))%N.

Definition escape_unit (c : code_unit) : jsstring :=
  if (c =? 8)%N then lit "\b"
  else if (c =? 9)%N then lit "\t"
  else if (c =? 10)%N then lit "\n"
  else if (c =? 12)%N then lit "\f"
  else if (c =? 13)%N then lit "\r"
  else if (c =? 34)%N then lit "\" ++ dquote
  else if (c =? 92)%N then lit "\\"
  else if (c <? 32)%N then unicode_escape c
  else [c].

(** QuoteJSONString without the enclosing quotes. *)
Fixpoint quote_units (s : jsstring) : jsstring :=
  match s with
  | [] => []
  | c :: s' =>
      if is_leading_surrogate c then
        match s' with
        | d :: s'' =>
            if is_trailing_surrogate d then c :: d :: quote_units s''
            else unicode_escape c ++ quote_units s'
        | [] => unicode_escape c
        end
      else if is_trailing_surrogate c then unicode_escape c ++ quote_units s'
      else escape_unit c ++ quote_units s'
  end.

Definition QuoteJSONString (s : jsstring) : jsstring :=
  dquote ++ quote_units s ++ dquote.

(** [JSON.stringify(value, null, gap)]: [gap] is empty for the compact form
    and two spaces for [JSON.stringify(results, null, 2)]; [indent] is the
    current indentation. *)
Fixpoint SerializeJSON (gap indent : jsstring) (j : json) : jsstring :=
  let inner := indent ++ gap in
  let wrap (opening closing : jsstring) (parts : list jsstring) :=
    match parts with
    | [] => opening ++ closing
    | _ =>
        match gap with
        | [] => opening ++ join (lit ",") parts ++ closing
        | _ => opening ++ newline ++ inner
               ++ join (lit "," ++ newline ++ inner) parts
               ++ newline ++ indent ++ closing
        end
    end in
  match j with
  | JNull => lit "null"
  | JBool true => lit "true"
  | JBool false => lit "false"
  | JNum n =>
      match canon n with
      | Finite _ _ _ => Number_toString n
      | _ => lit "null"
      end
  | JStr s => QuoteJSONString s
  | JArr items =>
      wrap (lit "[") (lit "]")
           ((fix each (l : list json) : list jsstring :=
               match l with
               | [] => []
               | x :: l' => SerializeJSON gap inner x :: each l'
               end) items)
  | JObj members =>
      wrap (lit "{") (lit "}")
           ((fix each (l : list (jsstring * json)) : list jsstring :=
               match l with
               | [] => []
               | (k, v) :: l' =>
                   (QuoteJSONString k ++ lit ":"
                    ++ match gap with [] => [] | _ => lit " " end
                    ++ SerializeJSON gap inner v) :: each l'
               end) members)
  end.

Definition JSON_stringify (j : json) : jsstring := SerializeJSON [] [] j.
Definition JSON_stringify_pretty (j : json) : jsstring :=
  SerializeJSON (lit "  ") [] j.

End JsValue.
Import JsValue.

(* ================================================================== *)
(** ** The deterministic fallback formatter *)
(* ================================================================== *)

(** One cell of [formatTable]:
    [val === null ? '' : typeof val === 'number' ? val.toFixed(2) : String(val)]. *)
Definition table_cell (val : member) : jsstring :=
  match val with
  | Column VNull => []
  | Column (VNum n) => Number_toFixed2 n
  | Column (VStr s) => s
  | Builtin name => builtin_text name
  | Undefined => lit "undefined"
  end.

Definition formatTable (results : list row) : jsstring :=
  match results with
  | [] => lit "No results found."
  | first :: _ =>
      let ks := keys first in
      let header := join (lit " | ") ks in
      let separator := join (lit " | ") (map (fun _ => lit "---") ks) in
      let rows :=
        map (fun r => join (lit " | ")
                           (map (fun key => table_cell (row_get r key)) ks))
            results in
      join newline (header :: separator :: rows)
  end.

Definition is_defined (v : option colval) : bool :=
  match v with None => false | Some _ => true end.

(** The [parts] array of the one-row, several-columns branch. *)
Definition summary_parts (r : row) : list jsstring :=
  let nameFirst := lookup r (lit "nameFirst") in
  let nameLast := lookup r (lit "nameLast") in
  let ERA := lookup r (lit "ERA") in
  let SO := lookup r (lit "SO") in
  let W := lookup r (lit "W") in
  let yearID := lookup r (lit "yearID") in
  (if truthy nameFirst && truthy nameLast
   then [ToString nameFirst ++ lit " " ++ ToString nameLast] else [])
  ++ (if is_defined ERA
      then [lit "ERA: " ++ Number_toFixed2 (parseFloat (ToString ERA))]
      else [])
  ++ (if is_defined SO then [ToString SO ++ lit " SO"] else [])
  ++ (if is_defined W then [ToString W ++ lit " W"] else [])
  ++ (if truthy yearID then [lit "(" ++ ToString yearID ++ lit ")"] else []).

Definition formatSimple (results : list row) (userQuery : jsstring)
  : jsstring :=
  match results with
  | [] => lit "No results found."
  | [r] =>
      match keys r with
      | [key] =>
          let value := lookup r key in
          match value with
          | None | Some VNull => lit "No data available."
          | _ =>
              if includes key (lit "SUM(")
              then lit "The total is " ++ ToString value ++ lit "."
              else if includes key (lit "AVG(")
              then lit "The average is "
                   ++ Number_toFixed2 (parseFloat (ToString value)) ++ lit "."
              else if includes key (lit "COUNT(")
              then lit "The count is " ++ ToString value ++ lit "."
              else lit "Result: " ++ key ++ lit " = " ++ ToString value
          end
      | _ =>
          match summary_parts r with
          | [] => JSON_stringify (json_of_row r)
          | parts => join (lit " ") parts
          end
      end
  | _ => formatTable results
  end.

(* ================================================================== *)
(** ** Outbound calls: the AI binding and the D1 binding *)
(* ================================================================== *)

Module Effects.

(** A thrown value, which may be any value, as the [catch] blocks see it:
    they only read [error.message].  [Thrown message] is a value whose
    [message] is read as the primitive [message]: an [Error] object, whose
    message is a string; any other object, by its [message] property; a
    primitive other than [null] and [undefined], whose message is
    [undefined].  [Unreadable raised] is a value on which reading
    [error.message] throws [raised]: [null] and [undefined], on which the
    engine raises a TypeError, and an object whose [message] is a getter
    that throws.  A message that is an object, a symbol or a bigint is not
    covered. *)
Inductive js_error :=
| Thrown (message : primitive)
| Unreadable (raised : js_error).

(** [new Error(message)]. *)
Definition Error (message : jsstring) : js_error := Thrown (PStr message).

Record ChatMessage := { role : jsstring; content : jsstring }.

(** The arguments of [ai.run(model, { messages, temperature, max_tokens })]. *)
Record ai_request := {
  model : jsstring;
  messages : list ChatMessage;
  temperature : Q;
  max_tokens : N
}.

(** What [await ai.run(...)] followed by reading [response.response] gives:
    the text, or an exception (the call rejects, or it resolves to a value
    whose [response] is not a string, and [.trim()] raises a TypeError). *)
Inductive ai_outcome :=
| AiReturns (response : jsstring)
| AiThrows (e : js_error).

(** What [await db.prepare(sql).all()] gives: a result object whose
    [results] is an array of rows or is missing, or an exception. *)
Inductive db_outcome :=
| DbReturns (results : option (list row))
| DbThrows (e : js_error).

(** Programs that call the two bindings and may throw. *)
Inductive prog (A : Type) : Type :=
| Ret (a : A)
| Throw (e : js_error)
| AiRun (req : ai_request) (k : ai_outcome -> prog A)
| DbAll (sql : jsstring) (k : db_outcome -> prog A).

Arguments Throw {A} e.

Fixpoint bind {A B} (p : prog A) (f : A -> prog B) : prog B :=
  match p with
  | Ret a => f a
  | Throw e => Throw e
  | AiRun req k => AiRun req (fun o => bind (k o) f)
  | DbAll sql k => DbAll sql (fun o => bind (k o) f)
  end.

(** [try { p } catch (error) { handler error }]. *)
Fixpoint try_catch {A} (p : prog A) (handler : js_error -> prog A) : prog A :=
  match p with
  | Ret a => Ret a
  | Throw e => handler e
  | AiRun req k => AiRun req (fun o => try_catch (k o) handler)
  | DbAll sql k => DbAll sql (fun o => try_catch (k o) handler)
  end.

(** [error.message]. *)
Definition read_message (error : js_error) : prog primitive :=
  match error with
  | Thrown message => Ret message
  | Unreadable raised => Throw raised
  end.

(** [await ai.run(...)] down to the text of the completion. *)
Definition ai_run (req : ai_request) : prog jsstring :=
  AiRun req (fun o =>
    match o with
    | AiReturns response => Ret response
    | AiThrows e => Throw e
    end).

(** [await db.prepare(sql).all()] down to [result.results]. *)
Definition db_prepare_all (sql : jsstring) : prog (option (list row)) :=
  DbAll sql (fun o =>
    match o with
    | DbReturns results => Ret results
    | DbThrows e => Throw e
    end).

(** An environment: a world state, and how the two services answer a call
    in a state.  The D1 tables live in the world. *)
Record handlers (W : Type) := {
  answer_ai : W -> ai_request -> ai_outcome * W;
  answer_db : W -> jsstring -> db_outcome * W
}.

Inductive event :=
| EvAi (req : ai_request) (o : ai_outcome)
| EvDb (sql : jsstring) (o : db_outcome).

Inductive completion (A : Type) :=
| Returned (a : A)
| Raised (e : js_error).

Arguments Raised {A} e.

Record run_result (W A : Type) := {
  outcome : completion A;
  final : W;
  trace : list event
}.

(** Run a program in an environment: the completion, the final world and
    the calls made, in order. *)
Fixpoint run {W A} (h : handlers W) (p : prog A) (w : W) : run_result W A :=
  match p with
  | Ret a => {| outcome := Returned a; final := w; trace := [] |}
  | Throw e => {| outcome := Raised e; final := w; trace := [] |}
  | AiRun req k =>
      let '(o, w') := answer_ai h w req in
      let r := run h (k o) w' in
      {| outcome := outcome r; final := final r;
         trace := EvAi req o :: trace r |}
  | DbAll sql k =>
      let '(o, w') := answer_db h w sql in
      let r := run h (k o) w' in
      {| outcome := outcome r; final := final r;
         trace := EvDb sql o :: trace r |}
  end.

(** The statements handed to D1 during a run. *)
Fixpoint db_statements (tr : list event) : list jsstring :=
  match tr with
  | [] => []
  | EvDb sql _ :: tr' => sql :: db_statements tr'
  | EvAi _ _ :: tr' => db_statements tr'
  end.

End Effects.
Import Effects.

Notation "x <- p ;; q" := (bind p (fun x => q))
  (at level 61, p at next level, right associativity).

(* ================================================================== *)
(** ** The Worker *)
(* ================================================================== *)

Definition SYSTEM_PROMPT : jsstring :=
  join newline
   [ lit "You are a baseball statistics assistant that translates user questions into SQL queries.";
     [];
     lit "DATABASE SCHEMA:";
     lit "- people: playerID (TEXT PRIMARY KEY), nameFirst (TEXT), nameLast (TEXT)";
     lit "- teams: yearID (INT), teamID (TEXT), name (TEXT), W (INT), L (INT), G (INT)";
     lit "- pitching: playerID (TEXT), yearID (INT), stint (INT), teamID (TEXT), W (INT), L (INT), G (INT), GS (INT), SV (INT), IPouts (INT), SO (INT), BB (INT), ERA (REAL), H (INT), ER (INT), HR (INT)";
     [];
     lit "RULES:";
     lit "1. Use SQLite syntax";
     lit "2. Always include LIMIT clause to prevent excessive results (default LIMIT 10)";
     lit "3. Use proper JOINs when querying across tables";
     lit "4. Match player names with LIKE for flexibility (e.g., nameLast LIKE '%deGrom%')";
     lit "5. Use aggregate functions (AVG, SUM, MAX, MIN) for statistics";
     lit "6. Always filter by yearID when year is mentioned";
     lit "7. teamID uses abbreviations (e.g., 'SEA', 'NYA', 'LAD', 'HOU', 'WAS' for Nationals)";
     lit "8. ERA is stored as a REAL number, lower is better";
     lit "9. IPouts represents innings pitched as outs (divide by 3 for innings)";
     [];
     lit "RESPONSE FORMAT:";
     lit "Return ONLY the SQL query without any explanation or markdown formatting.";
     [];
     lit "EXAMPLES:";
     lit "Q: Who had the lowest ERA in 2023?";
     lit "A: SELECT p.playerID, pe.nameFirst, pe.nameLast, p.ERA FROM pitching p JOIN people pe ON p.playerID = pe.playerID WHERE p.yearID = 2023 AND p.GS >= 10 ORDER BY p.ERA ASC LIMIT 1;";
     [];
     lit "Q: Show top 5 strikeout leaders for SEA in 2019";
     lit "A: SELECT p.playerID, pe.nameFirst, pe.nameLast, p.SO FROM pitching p JOIN people pe ON p.playerID = pe.playerID WHERE p.teamID = 'SEA' AND p.yearID = 2019 ORDER BY p.SO DESC LIMIT 5;";
     [];
     lit "Q: Summarize Jacob deGrom ERA by year";
     lit "A: SELECT p.yearID, p.teamID, p.ERA, p.W, p.L FROM pitching p JOIN people pe ON p.playerID = pe.playerID WHERE pe.nameLast LIKE '%deGrom%' ORDER BY p.yearID;" ].

Definition LLAMA : jsstring := lit "@cf/meta/llama-3.3-70b-instruct-fp8-fast".

(** The post-processing of [generateSQL] (the statements after the model
    call): trim, drop the code fences, trim, terminate with a semicolon. *)
Definition normalize_sql (response : jsstring) : jsstring :=
  let sql := trim response in
  let sql := replace_all (match_literal_opt_newline (lit "```sql")) sql in
  let sql := replace_all (match_literal_opt_newline (lit "```")) sql in
  let sql := trim sql in
  if negb (endsWith sql (lit ";")) then sql ++ lit ";" else sql.

Definition synthesis_request (userQuery : jsstring) : ai_request :=
  {| model := LLAMA;
     messages := [ {| role := lit "system"; content := SYSTEM_PROMPT |};
                   {| role := lit "user"; content := userQuery |} ];
     temperature := 1 # 10;
     max_tokens := 500 |}.

Definition generateSQL (userQuery : jsstring) : prog jsstring :=
  response <- ai_run (synthesis_request userQuery) ;;
  Ret (normalize_sql response).

Definition executeQuery (sql : jsstring) : prog (list row) :=
  try_catch
    (result <- db_prepare_all sql ;;
     Ret (match result with Some rows => rows | None => [] end))
    (fun error =>
       message <- read_message error ;;
       Throw (Error (lit "Database query failed: "
                     ++ primitive_ToString message))).

Definition NO_RESULTS_MESSAGE : jsstring :=
  join newline
   [ lit "I couldn't find any data matching your question. This could be because:";
     lit "- The player name might be spelled differently";
     lit "- The year might not be in our dataset (we have data from 2018-2024)";
     lit "- The team abbreviation might need adjustment (e.g., SEA for Seattle, NYA for Yankees, WAS for Nationals)";
     [];
     lit "Would you like to try rephrasing your question?" ].

Definition summary_prompt (userQuery : jsstring) (results : list row)
           (sql : jsstring) : jsstring :=
  let resultsString := JSON_stringify_pretty (json_of_rows results) in
  join newline
   [ lit "The user asked: " ++ dquote ++ userQuery ++ dquote;
     [];
     lit "The SQL query executed was: " ++ sql;
     [];
     lit "The database returned these results:";
     resultsString;
     [];
     lit "Please provide a natural, conversational answer in 1-3 clear sentences. Be specific with numbers, names, and statistics." ].

Definition summary_request (userQuery : jsstring) (results : list row)
           (sql : jsstring) : ai_request :=
  {| model := LLAMA;
     messages :=
       [ {| role := lit "system";
            content := lit "You are a helpful baseball statistics assistant. Answer questions clearly and concisely based on the data provided." |};
         {| role := lit "user";
            content := summary_prompt userQuery results sql |} ];
     temperature := 3 # 10;
     max_tokens := 300 |}.

(** [!answer || answer.length < 10]. *)
Definition degenerate_answer (answer : jsstring) : bool :=
  match answer with
  | [] => true
  | _ => (List.length answer <? 10)%nat
  end.

Definition formatResponse (userQuery : jsstring) (results : list row)
           (sql : jsstring) : prog jsstring :=
  match results with
  | [] => Ret NO_RESULTS_MESSAGE
  | _ =>
      try_catch
        (response <- ai_run (summary_request userQuery results sql) ;;
         let answer := trim response in
         if degenerate_answer answer
         then Ret (formatSimple results userQuery)
         else Ret answer)
        (fun error => Ret (formatSimple results userQuery))
  end.

(** *** Requests and responses *)

(** The body as [await request.json()] sees it: the parsed JSON value, or
    the exception it rejects with when the body is not JSON. *)
Inductive request_body :=
| BodyJson (v : json)
| BodyInvalid (e : js_error).

Record Request := {
  method : jsstring;
  pathname : jsstring;   (* [new URL(request.url).pathname] *)
  body : request_body
}.

Record Response := {
  status : N;
  headers : list (jsstring * jsstring);
  response_body : option jsstring
}.

Fixpoint has_header (name : jsstring) (hs : list (jsstring * jsstring))
  : bool :=
  match hs with
  | [] => false
  | (k, _) :: hs' => jsstring_eqb k name || has_header name hs'
  end.

Fixpoint get_header (name : jsstring) (hs : list (jsstring * jsstring))
  : option jsstring :=
  match hs with
  | [] => None
  | (k, v) :: hs' => if jsstring_eqb k name then Some v else get_header name hs'
  end.

(** [new Response(body, { status, headers })]: the status defaults to 200,
    and a string body brings its own [Content-Type] unless one is given. *)
Definition new_Response (b : option jsstring) (st : option N)
           (hs : list (jsstring * jsstring)) : Response :=
  {| status := match st with Some n => n | None => 200%N end;
     headers :=
       match b with
       | Some _ =>
           if has_header (lit "Content-Type") hs then hs
           else hs ++ [(lit "Content-Type", lit "text/plain;charset=UTF-8")]
       | None => hs
       end;
     response_body := b |}.

Definition jsonResponse (data : json) (st : option N) : Response :=
  new_Response (Some (JSON_stringify data))
               (Some (match st with Some n => n | None => 200%N end))
               [ (lit "Content-Type", lit "application/json");
                 (lit "Access-Control-Allow-Origin", lit "*") ].

(** Property access on a parsed JSON value that is not null: only an object
    can have an own [message]. *)
Fixpoint get_member (members : list (jsstring * json)) (name : jsstring)
  : option json :=
  match members with
  | [] => None
  | (k, v) :: ms => if jsstring_eqb k name then Some v else get_member ms name
  end.

Definition get_property (v : json) (name : jsstring) : option json :=
  match v with
  | JObj members => get_member members name
  | _ => None
  end.

Section Worker.

(** The page served at [/]; the constant of the source is a parameter. *)
Variable HTML_CONTENT : jsstring.

(** The message of the TypeError the engine raises for
    [const { message } = null]. *)
Variable null_destructuring_message : jsstring.

Definition success_envelope (response sqlQuery : jsstring)
           (queryResults : list row) : json :=
  JObj [ (lit "success", JBool true);
         (lit "message", JStr response);
         (lit "sql", JStr sqlQuery);
         (lit "results", json_of_rows queryResults) ].

(** [{ success: false, error: message || 'An error occurred' }]. *)
Definition failure_envelope (message : primitive) : json :=
  JObj ((lit "success", JBool false)
        :: json_member (lit "error")
             (if ToBoolean message then message
              else PStr (lit "An error occurred"))).

Definition invalid_message_envelope : json :=
  JObj [ (lit "error", JStr (lit "Invalid message")) ].

(** The body of the [try] block of the [/api/chat] route. *)
Definition chat (request : Request) : prog Response :=
  match body request with
  | BodyInvalid e => Throw e
  | BodyJson JNull => Throw (Error null_destructuring_message)
  | BodyJson v =>
      match get_property v (lit "message") with
      | Some (JStr (c :: m)) =>
          let message := c :: m in
          sqlQuery <- generateSQL message ;;
          queryResults <- executeQuery sqlQuery ;;
          response <- formatResponse message queryResults sqlQuery ;;
          Ret (jsonResponse (success_envelope response sqlQuery queryResults)
                            None)
      | _ => Ret (jsonResponse invalid_message_envelope (Some 400%N))
      end
  end.

Definition fetch (request : Request) : prog Response :=
  if jsstring_eqb (method request) (lit "OPTIONS") then
    Ret (new_Response None None
           [ (lit "Access-Control-Allow-Origin", lit "*");
             (lit "Access-Control-Allow-Methods", lit "GET, POST, OPTIONS");
             (lit "Access-Control-Allow-Headers", lit "Content-Type") ])
  else if jsstring_eqb (pathname request) (lit "/api/chat")
          && jsstring_eqb (method request) (lit "POST") then
    try_catch (chat request)
      (fun error =>
         message <- read_message error ;;
         Ret (jsonResponse (failure_envelope message) (Some 500%N)))
  else if jsstring_eqb (pathname request) (lit "/")
          || jsstring_eqb (pathname request) (lit "/index.html") then
    Ret (new_Response (Some HTML_CONTENT) None
           [ (lit "Content-Type", lit "text/html") ])
  else
    Ret (new_Response (Some (lit "Not found")) (Some 404%N) []).

End Worker.

(* ================================================================== *)
(** ** The responses of the handler, and the run of the pipeline *)
(* ================================================================== *)

Definition ok_response (response sqlQuery : jsstring) (rows : list row)
  : Response :=
  jsonResponse (success_envelope response sqlQuery rows) None.

Definition error_response (message : primitive) : Response :=
  jsonResponse (failure_envelope message) (Some 500%N).

(** What the [catch] block of [fetch] makes of a thrown value: the 500
    answer with its message, or the exception that reading the message
    throws, with which [fetch] rejects. *)
Definition caught (error : js_error) : completion Response :=
  match error with
  | Thrown message => Returned (error_response message)
  | Unreadable raised => Raised raised
  end.

(** What the [catch] block of [executeQuery] throws on a thrown value. *)
Definition query_failure (error : js_error) : js_error :=
  match error with
  | Thrown message =>
      Error (lit "Database query failed: " ++ primitive_ToString message)
  | Unreadable raised => raised
  end.

Definition invalid_message_response : Response :=
  jsonResponse invalid_message_envelope (Some 400%N).

Definition html_response (HTML_CONTENT : jsstring) : Response :=
  new_Response (Some HTML_CONTENT) None [ (lit "Content-Type", lit "text/html") ].

Definition not_found_response : Response :=
  new_Response (Some (lit "Not found")) (Some 404%N) [].

(** The run of the pipeline on an accepted message, call by call. *)
Definition pipeline_run {W} (h : handlers W) (w : W) (userQuery : jsstring)
  : run_result W Response :=
  let ev1 := EvAi (synthesis_request userQuery) in
  let '(o1, w1) := answer_ai h w (synthesis_request userQuery) in
  match o1 with
  | AiThrows e =>
      {| outcome := caught e; final := w1; trace := [ev1 o1] |}
  | AiReturns raw =>
      let sql := normalize_sql raw in
      let '(o2, w2) := answer_db h w1 sql in
      match o2 with
      | DbThrows e =>
          {| outcome := caught (query_failure e);
             final := w2;
             trace := [ev1 o1; EvDb sql o2] |}
      | DbReturns res =>
          let rows := match res with Some rows => rows | None => [] end in
          match rows with
          | [] =>
              {| outcome := Returned (ok_response NO_RESULTS_MESSAGE sql []);
                 final := w2;
                 trace := [ev1 o1; EvDb sql o2] |}
          | _ =>
              let '(o3, w3) :=
                answer_ai h w2 (summary_request userQuery rows sql) in
              {| outcome :=
                   Returned (ok_response
                     match o3 with
                     | AiReturns text =>
                         if degenerate_answer (trim text)
                         then formatSimple rows userQuery else trim text
                     | AiThrows _ => formatSimple rows userQuery
                     end sql rows);
                 final := w3;
                 trace := [ev1 o1; EvDb sql o2;
                           EvAi (summary_request userQuery rows sql) o3] |}
          end
      end
  end.

(** The three envelopes of the [/api/chat] route. *)
Definition json_envelope (r : Response) : Prop :=
  get_header (lit "Access-Control-Allow-Origin") (headers r) = Some (lit "*")
  /\ get_header (lit "Content-Type") (headers r)
     = Some (lit "application/json")
  /\ ((status r = 200%N
       /\ exists (message sql : jsstring) (rows : list row),
           response_body r
           = Some (JSON_stringify
                     (JObj [ (lit "success", JBool true);
                             (lit "message", JStr message);
                             (lit "sql", JStr sql);
                             (lit "results", json_of_rows rows) ])))
      \/ (status r = 400%N
          /\ exists error : jsstring,
              response_body r
              = Some (JSON_stringify (JObj [ (lit "error", JStr error) ])))
      \/ (status r = 500%N
          /\ exists error : primitive,
              ToBoolean error = true
              /\ response_body r
                 = Some (JSON_stringify
                           (JObj ((lit "success", JBool false)
                                  :: json_member (lit "error") error))))).

(* ================================================================== *)
(** ** Vocabulary of the properties *)
(* ================================================================== *)

Definition fence : jsstring := lit "```".

(** A matcher consumes: what it leaves is shorter than what it was given. *)
Definition consuming (matcher : jsstring -> option jsstring) : Prop :=
  forall s rest, matcher s = Some rest ->
                 (List.length rest < List.length s)%nat.

Definition strip_fence (fuel : nat) : jsstring -> jsstring :=
  replace_all_fuel (match_literal_opt_newline fence) fuel.

Definition nonempty (s : jsstring) : bool :=
  match s with [] => false | _ :: _ => true end.

(** A degraded summarization: the call throws, or the text it returns is
    shorter than ten code units once trimmed. *)
Definition degraded (o : ai_outcome) : Prop :=
  match o with
  | AiThrows _ => True
  | AiReturns text => (List.length (trim text) < 10)%nat
  end.

(** An optional minus sign, at least one digit, a point, two digits. *)
Definition two_decimals (s : jsstring) : Prop :=
  exists sign int_part f1 f2,
    s = sign ++ int_part ++ lit "." ++ [f1; f2]
    /\ (sign = [] \/ sign = lit "-")
    /\ int_part <> []
    /\ Forall (fun c => is_digit c = true) int_part
    /\ is_digit f1 = true /\ is_digit f2 = true.

(** A finite number of magnitude below [10^21]. *)
Definition below_1e21 (x : number) : bool :=
  match canon x with
  | Finite _ m e => negb (Qle_bool (pow10 21) (magnitude m e))
  | _ => false
  end.

(* ================================================================== *)
(** ** A concrete environment *)
(* ================================================================== *)

Definition sample_page : jsstring := lit "<!DOCTYPE html>".

Definition sample_type_error : jsstring :=
  lit "Cannot destructure property 'message' of '(intermediate value)' as it is null.".

Definition chat_request (v : json) : Request :=
  {| method := lit "POST"; pathname := lit "/api/chat"; body := BodyJson v |}.

Definition message_body (text : jsstring) : json :=
  JObj [ (lit "message", JStr text) ].

Definition yankees_question : jsstring :=
  lit "How many wins did the Yankees have in 2024?".

Definition yankees_completion : jsstring :=
  lit "SELECT SUM(W) FROM teams WHERE teamID = 'NYA' AND yearID = 2024 LIMIT 10".

Definition yankees_rows : list row := [ [ (lit "SUM(W)", VNum (of_Z 94)) ] ].

(** The tables of the dataset, as far as a run can tell them apart. *)
Record tables := {
  people : list row;
  teams : list row;
  pitching : list row
}.

Definition sample_tables : tables :=
  {| people := [ [ (lit "playerID", VStr (lit "degroja01"));
                   (lit "nameFirst", VStr (lit "Jacob"));
                   (lit "nameLast", VStr (lit "deGrom")) ] ];
     teams := [ [ (lit "yearID", VNum (of_Z 2024));
                  (lit "teamID", VStr (lit "NYA"));
                  (lit "W", VNum (of_Z 94)) ] ];
     pitching := [] |}.

Definition delete_people : jsstring := lit "DELETE FROM people;".

(** A small environment.  The model answers the synthesis call (the one with
    [max_tokens = 500]) with [completion] and fails the summarization call.
    The engine carries out what it is handed, as D1 does: it empties [people]
    on the statement [delete_people], and answers every other statement with
    [rows], leaving the tables alone. *)
Definition sample_service (completion : jsstring) (rows : list row)
  : handlers tables :=
  {| answer_ai := fun w req =>
       if (max_tokens req =? 500)%N
       then (AiReturns completion, w)
       else (AiThrows (Error (lit "upstream timeout")), w);
     answer_db := fun w sql =>
       if jsstring_eqb sql delete_people
       then (DbReturns (Some []),
             {| people := []; teams := teams w; pitching := pitching w |})
       else (DbReturns (Some rows), w) |}.

(** 1e21, the double [5^21 * 2^21]. *)
Definition sextillion : number := Finite false (5 ^ 21) 21.

(* ================================================================== *)
(** ** Further vocabulary: the handler's other responses *)
(* ================================================================== *)

(** The answer to a CORS preflight. *)
Definition options_response : Response :=
  new_Response None None
    [ (lit "Access-Control-Allow-Origin", lit "*");
      (lit "Access-Control-Allow-Methods", lit "GET, POST, OPTIONS");
      (lit "Access-Control-Allow-Headers", lit "Content-Type") ].

(** A statement [generateSQL] would hand on as it is: no white space at
    either end, no code fence, a final semicolon. *)
Definition clean_statement (s : jsstring) : Prop :=
  trim s = s /\ includes s fence = false /\ endsWith s (lit ";") = true.

(** The completion [body] inside a [sql] code fence. *)
Definition fenced (body : jsstring) : jsstring :=
  lit "```sql" ++ newline ++ body ++ newline ++ lit "```".

Definition backtick : code_unit := 96%N.

(** The columns of [r] that [ks] names. *)
Definition restrict_columns (ks : list jsstring) (r : row) : row :=
  filter (fun kv => existsb (jsstring_eqb (fst kv)) ks) r.

(** What [formatResponse] answers for an outcome of the summarization. *)
Definition composed_answer (userQuery : jsstring) (rows : list row)
           (o : ai_outcome) : jsstring :=
  match o with
  | AiReturns text =>
      if degenerate_answer (trim text)
      then formatSimple rows userQuery else trim text
  | AiThrows _ => formatSimple rows userQuery
  end.

(* ================================================================== *)
(** ** The seeding script, [src/scripts/seed_d1.ts] *)
(* ================================================================== *)

Module SeedScript.

(** *** More built-ins: [Number(string)], [isNaN], [isFinite], [split] *)

Definition isNaN (x : number) : bool :=
  match canon x with NaN => true | _ => false end.

Definition isFinite (x : number) : bool :=
  match canon x with Finite _ _ _ => true | _ => false end.

(** The value of a digit in a radix up to 16. *)
Definition digit_value (c : code_unit) : option N :=
  if ((48 <=? c) && (c <=? 57))%N then Some (c - 48)%N
  else if ((97 <=? c) && (c <=? 102))%N then Some (c - 87)%N
  else if ((65 <=? c) && (c <=? 70))%N then Some (c - 55)%N
  else None.

(** The value of [s] read as digits of [radix], when all of it is. *)
Fixpoint radix_digits (radix : N) (s : jsstring) (acc : N) : option N :=
  match s with
  | [] => Some acc
  | c :: s' =>
      match digit_value c with
      | Some d =>
          if (d <? radix)%N then radix_digits radix s' (radix * acc + d)%N
          else None
      | None => None
      end
  end.

(** NonDecimalIntegerLiteral: [0x], [0o] or [0b] and at least one digit. *)
Definition nondecimal_literal (t : jsstring) : option N :=
  match t with
  | z :: x :: d :: ds =>
      if negb (z =? 48)%N then None
      else if ((x =? 120) || (x =? 88))%N then radix_digits 16 (d :: ds) 0
      else if ((x =? 111) || (x =? 79))%N then radix_digits 8 (d :: ds) 0
      else if ((x =? 98) || (x =? 66))%N then radix_digits 2 (d :: ds) 0
      else None
  | _ => None
  end.

(** An optional sign at the start of [s]: whether it is a minus, and what
    follows it. *)
Definition scan_sign (s : jsstring) : bool * jsstring :=
  match s with
  | c :: r =>
      if (c =? 43)%N then (false, r)
      else if (c =? 45)%N then (true, r)
      else (false, s)
  | [] => (false, [])
  end.

(** ExponentPart at the start of [s]: its value and what follows it; when
    there is none, zero and [s]. *)
Definition scan_exponent (s : jsstring) : Z * jsstring :=
  match s with
  | c :: s' =>
      if ((c =? 101) || (c =? 69))%N then
        let '(neg, s'') := scan_sign s' in
        match span_digits s'' with
        | ([], _) => (0%Z, s)
        | (ds, rest) =>
            let v := Z.of_N (N_of_digits ds) in
            (if neg then (- v)%Z else v, rest)
        end
      else (0%Z, s)
  | [] => (0%Z, [])
  end.

(** A point and the digits after it, at the start of [s]: the digits and
    what follows them; without a point, no digits and [s]. *)
Definition scan_fraction (s : jsstring) : jsstring * jsstring :=
  match s with
  | c :: r => if (c =? 46)%N then span_digits r else ([], s)
  | [] => ([], [])
  end.

(** StrUnsignedDecimalLiteral, all of [s]. *)
Definition decimal_literal (neg : bool) (s : jsstring) : number :=
  if jsstring_eqb s (lit "Infinity") then Infinity neg
  else
    let '(ip, r1) := span_digits s in
    let '(fp, r2) := scan_fraction r1 in
    match ip, fp with
    | [], [] => NaN
    | _, _ =>
        let '(ex, r3) := scan_exponent r2 in
        match r3 with
        | [] =>
            round_double neg
              (inject_Z (Z.of_N (N_of_digits (ip ++ fp)))
               * pow10 (ex - Z.of_nat (List.length fp)))
        | _ :: _ => NaN
        end
    end.

(** StringToNumber, ECMA-262 7.1.4.1.1: what [Number(string)] gives. *)
Definition StringToNumber (s : jsstring) : number :=
  match trim s with
  | [] => Finite false 0 0
  | t =>
      match nondecimal_literal t with
      | Some n => round_double false (inject_Z (Z.of_N n))
      | None => let '(neg, r) := scan_sign t in decimal_literal neg r
      end
  end.

(** [s.split(sep)] for a separator of one code unit. *)
Fixpoint split_on (sep : code_unit) (s : jsstring) : list jsstring :=
  match s with
  | [] => [[]]
  | c :: s' =>
      if N.eqb c sep then [] :: split_on sep s'
      else
        match split_on sep s' with
        | first :: rest => (c :: first) :: rest
        | [] => [[c]]
        end
  end.

(** *** Rows of a CSV file *)

(** A [CSVRow]: the own properties of the object, in the order they were
    created.  The script reads a row by column name only. *)
Definition CSVRow := list (jsstring * jsstring).

Fixpoint own_property (r : CSVRow) (key : jsstring) : option jsstring :=
  match r with
  | [] => None
  | (k, v) :: r' => if jsstring_eqb k key then Some v else own_property r' key
  end.

Fixpoint set_own_property (r : CSVRow) (key value : jsstring) : CSVRow :=
  match r with
  | [] => [(key, value)]
  | (k, v) :: r' =>
      if jsstring_eqb k key then (k, value) :: r'
      else (k, v) :: set_own_property r' key value
  end.

(** [row[key] = value] on an object literal: the setter of [__proto__]
    ignores a string, every other name becomes an own property. *)
Definition assign (r : CSVRow) (key value : jsstring) : CSVRow :=
  if jsstring_eqb key (lit "__proto__") then r
  else set_own_property r key value.

(** What [row[col]] gives: an own string, a function or object inherited
    from [Object.prototype], or [undefined]. *)
Inductive property :=
| Own (value : jsstring)
| Inherited
| Missing.

Definition get (r : CSVRow) (col : jsstring) : property :=
  match own_property r col with
  | Some v => Own v
  | None =>
      if existsb (jsstring_eqb col) Object_prototype_names
      then Inherited else Missing
  end.

(** [values[i] || '']. *)
Definition field (values : list jsstring) (i : nat) : jsstring :=
  match nth_error values i with
  | Some v => v
  | None => []
  end.

(** [headers.forEach((header, i) => { row[header] = values[i] || ''; })],
    from index [i] on. *)
Fixpoint fill_row (headers : list jsstring) (i : nat)
         (values : list jsstring) (r : CSVRow) : CSVRow :=
  match headers with
  | [] => r
  | header :: hs => fill_row hs (S i) values (assign r header (field values i))
  end.

(** [parseCSV] on the text [readFileSync] gave. *)
Definition parse_lines (content : jsstring) : list CSVRow :=
  let lines := split_on 10%N (trim content) in
  let headers := map trim (split_on 44%N (hd [] lines)) in
  map (fun line => fill_row headers 0 (map trim (split_on 44%N line)) [])
      (tl lines).


(** *** INSERT statements *)

(** [value.replace(/'/g, "''")]. *)
Definition escape_quotes (value : jsstring) : jsstring :=
  flat_map (fun c => if (c =? 39)%N then [39; 39]%N else [c]) value.

Definition sql_string_literal (value : jsstring) : jsstring :=
  lit "'" ++ escape_quotes value ++ lit "'".

(** One element of [values]; [None] when the callback throws, which it does
    on an inherited function or object at [value.replace]. *)
Definition render_value (p : property) : option jsstring :=
  match p with
  | Missing => Some (lit "NULL")
  | Own [] => Some (lit "NULL")
  | Own value =>
      if negb (isNaN (parseFloat value)) && isFinite (StringToNumber value)
      then Some value
      else Some (sql_string_literal value)
  | Inherited => None
  end.

Fixpoint all_some {A} (l : list (option A)) : option (list A) :=
  match l with
  | [] => Some []
  | None :: _ => None
  | Some a :: l' =>
      match all_some l' with
      | Some r => Some (a :: r)
      | None => None
      end
  end.

Definition insert_statement (tableName : jsstring) (columns : list jsstring)
           (values : list jsstring) : jsstring :=
  lit "INSERT INTO " ++ tableName ++ lit " (" ++ join (lit ", ") columns
  ++ lit ") VALUES (" ++ join (lit ", ") values ++ lit ");".

(** [generateInserts]; [None] when it throws. *)
Definition generateInserts (tableName : jsstring) (rows : list CSVRow)
           (columns : list jsstring) : option (list jsstring) :=
  all_some
    (map (fun r =>
            match all_some (map (fun col => render_value (get r col)) columns)
            with
            | Some values => Some (insert_statement tableName columns values)
            | None => None
            end)
         rows).

End SeedScript.
Import SeedScript.

(** *** The script *)

Definition header_names (content : jsstring) : list jsstring :=
  map trim (split_on 44%N (hd [] (split_on 10%N (trim content)))).

Definition data_lines (content : jsstring) : list jsstring :=
  tl (split_on 10%N (trim content)).










Section Main.

(** [readFileSync(path, 'utf-8')], [path.join] of two segments and
    [process.cwd()]. *)
Variable readFileSync : jsstring -> js_error + jsstring.
Variable path_join : jsstring -> jsstring -> jsstring.
Variable cwd : jsstring.




End Main.

(** *** Vocabulary for the script's properties *)

(** How SQL reads a string literal after its opening quote: two quotes stand
    for one, a single quote ends it.  Gives the value and what follows. *)
Fixpoint read_quoted (s : jsstring) : option (jsstring * jsstring) :=
  match s with
  | [] => None
  | c :: s' =>
      if (c =? 39)%N then
        match s' with
        | d :: s'' =>
            if (d =? 39)%N then
              match read_quoted s'' with
              | Some (v, rest) => Some (39%N :: v, rest)
              | None => None
              end
            else Some ([], s')
        | [] => Some ([], [])
        end
      else
        match read_quoted s' with
        | Some (v, rest) => Some (c :: v, rest)
        | None => None
        end
  end.

Definition read_sql_string (s : jsstring) : option (jsstring * jsstring) :=
  match s with
  | 39%N :: s' => read_quoted s'
  | _ => None
  end.

(** The code units a numeric literal is made of: white space, digits, signs,
    the point, and the letters of exponents, radix prefixes and hex digits. *)
Definition numeric_literal_unit (c : code_unit) : bool :=
  is_white_space c || is_digit c
  || (c =? 43)%N || (c =? 45)%N || (c =? 46)%N
  || ((97 <=? c) && (c <=? 102))%N || ((65 <=? c) && (c <=? 70))%N
  || (c =? 120)%N || (c =? 88)%N || (c =? 111)%N || (c =? 79)%N.

(** *** A small file *)

Definition sample_people_csv : jsstring :=
  lit "playerID,nameLast" ++ newline ++ lit "oneilpa01, O'Neil" ++ newline.

Definition sample_people_row : CSVRow :=
  [ (lit "playerID", lit "oneilpa01"); (lit "nameLast", lit "O'Neil") ].

Definition sample_pitcher : row :=
  [ (lit "nameLast", VStr (lit "deGrom")); (lit "ERA", VNull) ].

Definition preflight_request : Request :=
  {| method := lit "OPTIONS"; pathname := lit "/api/chat";
     body := BodyJson (message_body yankees_question) |}.

Definition truncated_body : request_body :=
  BodyInvalid (Error (lit "Unexpected end of JSON input")).

Definition truncated_request : Request :=
  {| method := lit "POST"; pathname := lit "/api/chat";
     body := truncated_body |}.

Definition page_request : Request :=
  {| method := lit "GET"; pathname := lit "/";
     body := BodyInvalid (Error (lit "Unexpected end of JSON input")) |}.




(* ================================================================== *)
(** ** Lemmas on strings *)
(* ================================================================== *)

#[local] Arguments N.eqb : simpl never.

Lemma strip_prefix_app (p s r : jsstring) :
  strip_prefix p s = Some r -> s = p ++ r.
Proof.
  revert s. induction p as [|x p IH]; intros s H; simpl in H.
  - now inversion H.
  - destruct s as [|y s]; [discriminate|].
    destruct (N.eqb_spec x y) as [->|]; [|discriminate].
    simpl. f_equal. now apply IH.
Qed.

Lemma strip_prefix_extend (p s r t : jsstring) :
  strip_prefix p s = Some r -> strip_prefix p (s ++ t) = Some (r ++ t).
Proof.
  revert s. induction p as [|x p IH]; intros s H; simpl in *.
  - now inversion H.
  - destruct s as [|y s]; [discriminate|]. simpl.
    destruct (N.eqb x y); [now apply IH|discriminate].
Qed.

Lemma starts_with_extend (p s t : jsstring) :
  starts_with p s = true -> starts_with p (s ++ t) = true.
Proof.
  unfold starts_with. destruct (strip_prefix p s) eqn:E; [|discriminate].
  now rewrite (strip_prefix_extend _ _ t E).
Qed.

Lemma includes_suffix (q s p : jsstring) :
  includes s p = true -> includes (q ++ s) p = true.
Proof.
  intros H. induction q as [|c q IH]; [exact H|].
  simpl. rewrite IH. apply orb_true_r.
Qed.

Lemma includes_prefix (s t p : jsstring) :
  includes s p = true -> includes (s ++ t) p = true.
Proof.
  induction s as [|c s IH]; intros H.
  - simpl in H. rewrite orb_false_r in H.
    destruct t; simpl; apply orb_true_iff; left;
      now apply (starts_with_extend _ [] _ H).
  - simpl in H. apply orb_true_iff in H. simpl. apply orb_true_iff.
    destruct H as [H|H].
    + left. now apply (starts_with_extend _ (c :: s) t H).
    + right. now apply IH.
Qed.

(** *** trim *)

Lemma trimStart_suffix (s : jsstring) :
  exists p, s = p ++ trimStart s.
Proof.
  induction s as [|c s [p IH]]; [now exists []|].
  simpl. destruct (is_white_space c).
  - exists (c :: p). simpl. now f_equal.
  - now exists [].
Qed.

Lemma trimStart_head (s : jsstring) c r :
  trimStart s = c :: r -> is_white_space c = false.
Proof.
  induction s as [|d s IH]; simpl; [discriminate|].
  destruct (is_white_space d) eqn:E; [exact IH|].
  intros H. now inversion H; subst.
Qed.

Lemma trimEnd_prefix (s : jsstring) :
  exists p, s = trimEnd s ++ p.
Proof.
  unfold trimEnd. destruct (trimStart_suffix (rev s)) as [p Hp].
  exists (rev p). rewrite <- rev_app_distr, <- Hp. now rewrite rev_involutive.
Qed.

Lemma trim_no_leading_space (s : jsstring) c r :
  trim s = c :: r -> is_white_space c = false.
Proof.
  unfold trim. intros H.
  destruct (trimEnd_prefix (trimStart s)) as [p Hp].
  rewrite H in Hp. simpl in Hp. now apply trimStart_head in Hp.
Qed.

Lemma trim_no_trailing_space (s : jsstring) c r :
  trim s = r ++ [c] -> is_white_space c = false.
Proof.
  unfold trim, trimEnd. intros H.
  apply (f_equal (@rev _)) in H.
  rewrite rev_involutive, rev_app_distr in H. simpl in H.
  now apply trimStart_head in H.
Qed.

Lemma includes_trim (s p : jsstring) :
  includes (trim s) p = true -> includes s p = true.
Proof.
  intros H. unfold trim in H.
  destruct (trimStart_suffix s) as [q Hq].
  destruct (trimEnd_prefix (trimStart s)) as [t Ht].
  rewrite Hq, Ht. apply includes_suffix. now apply includes_prefix.
Qed.

(** *** Removing the code fences *)

Lemma match_literal_opt_newline_eq (p s : jsstring) :
  match_literal_opt_newline p s =
  match strip_prefix p s with
  | Some (c :: rest) => Some (if N.eqb c 10 then rest else c :: rest)
  | other => other
  end.
Proof.
  unfold match_literal_opt_newline.
  destruct (strip_prefix p s) as [[|c r]|]; try reflexivity.
  destruct (N.eqb_spec c 10) as [->|Hc]; [reflexivity|].
  destruct c as [|q]; [reflexivity|].
  do 4 (try (destruct q as [q|q|]; try reflexivity)).
  now elim Hc.
Qed.

(** *** The scan of [replace_all] never runs short *)

Lemma replace_all_fuel_enough matcher (Hm : consuming matcher) :
  forall f1 f2 s,
    (List.length s < f1)%nat -> (List.length s < f2)%nat ->
    replace_all_fuel matcher f1 s = replace_all_fuel matcher f2 s.
Proof.
  induction f1 as [|f1 IH]; intros f2 s H1 H2; [lia|].
  destruct f2 as [|f2]; [lia|]. simpl.
  destruct (matcher s) as [rest|] eqn:E.
  - apply Hm in E. apply IH; lia.
  - destruct s as [|c s]; [reflexivity|]. simpl in *.
    f_equal. apply IH; lia.
Qed.

(** [replace_all] satisfies the equation of the left-to-right scan. *)
Lemma replace_all_unfold matcher (Hm : consuming matcher) (s : jsstring) :
  replace_all matcher s =
  match matcher s with
  | Some rest => replace_all matcher rest
  | None =>
      match s with
      | [] => []
      | c :: s' => c :: replace_all matcher s'
      end
  end.
Proof.
  unfold replace_all at 1. simpl.
  destruct (matcher s) as [rest|] eqn:E.
  - apply Hm in E. apply replace_all_fuel_enough; auto; lia.
  - destruct s as [|c s]; reflexivity.
Qed.

Lemma match_literal_consuming (c : code_unit) (p : jsstring) :
  consuming (match_literal_opt_newline (c :: p)).
Proof.
  intros s rest. rewrite match_literal_opt_newline_eq.
  destruct (strip_prefix (c :: p) s) as [r|] eqn:E; [|discriminate].
  apply strip_prefix_app in E. subst s. rewrite length_app. simpl.
  destruct r as [|d r]; intros H; [inversion H; simpl; lia|].
  destruct (N.eqb d 10); inversion H; simpl; lia.
Qed.

Lemma match_fence_some (s rest : jsstring) :
  match_literal_opt_newline fence s = Some rest ->
  starts_with fence s = true /\ (List.length rest < List.length s)%nat.
Proof.
  rewrite match_literal_opt_newline_eq. unfold starts_with.
  destruct (strip_prefix fence s) as [r|] eqn:E; [|discriminate].
  apply strip_prefix_app in E. subst s. intros H. split; [reflexivity|].
  rewrite length_app. simpl.
  destruct r as [|c r]; [inversion H; simpl; lia|].
  destruct (N.eqb c 10); inversion H; simpl; lia.
Qed.

Lemma match_fence_none (s : jsstring) :
  match_literal_opt_newline fence s = None -> starts_with fence s = false.
Proof.
  rewrite match_literal_opt_newline_eq. unfold starts_with.
  destruct (strip_prefix fence s) as [[|c r]|]; try discriminate; auto.
Qed.

Lemma strip_fence_head1 fuel s :
  starts_with (lit "`") (strip_fence fuel s) = true ->
  starts_with (lit "`") s = true.
Proof.
  destruct fuel as [|fuel]; [auto|]. unfold strip_fence. simpl.
  destruct (match_literal_opt_newline fence s) as [rest|] eqn:E.
  - intros _. apply match_fence_some in E as [E _].
    unfold starts_with in *.
    destruct (strip_prefix fence s) eqn:F; [|discriminate].
    apply strip_prefix_app in F. now subst s.
  - destruct s as [|c s]; [auto|].
    unfold starts_with. simpl. now destruct (N.eqb 96 c).
Qed.

Lemma strip_fence_head2 fuel s :
  starts_with (lit "``") (strip_fence fuel s) = true ->
  starts_with (lit "``") s = true.
Proof.
  destruct fuel as [|fuel]; [auto|]. unfold strip_fence. simpl.
  destruct (match_literal_opt_newline fence s) as [rest|] eqn:E.
  - intros _. apply match_fence_some in E as [E _].
    unfold starts_with in *.
    destruct (strip_prefix fence s) eqn:F; [|discriminate].
    apply strip_prefix_app in F. now subst s.
  - destruct s as [|c s]; [auto|]. fold (strip_fence fuel s).
    intros H. pose proof (strip_fence_head1 fuel s) as H1.
    unfold starts_with in *. simpl in *.
    destruct (N.eqb 96 c); [|discriminate].
    destruct (strip_fence fuel s) as [|d t]; [discriminate|].
    destruct (N.eqb 96 d) eqn:D; [|discriminate].
    specialize (H1 eq_refl).
    destruct s as [|d' s']; [discriminate|].
    now destruct (N.eqb 96 d').
Qed.

Lemma strip_fence_head3 fuel s :
  (List.length s < fuel)%nat ->
  starts_with fence (strip_fence fuel s) = false.
Proof.
  revert s. induction fuel as [|fuel IH]; intros s Hlen; [lia|].
  unfold strip_fence. simpl.
  destruct (match_literal_opt_newline fence s) as [rest|] eqn:E.
  - apply match_fence_some in E as [_ E]. apply IH. lia.
  - apply match_fence_none in E.
    destruct s as [|c s]; [reflexivity|]. fold (strip_fence fuel s).
    destruct (starts_with fence (c :: strip_fence fuel s)) eqn:F; [|reflexivity].
    pose proof (strip_fence_head2 fuel s) as H2.
    unfold starts_with in *. simpl in *.
    destruct (N.eqb 96 c); [|discriminate].
    destruct (strip_fence fuel s) as [|d [|d2 t]]; try discriminate.
    + now destruct (N.eqb 96 d).
    + destruct (N.eqb 96 d); [|discriminate].
      destruct (N.eqb 96 d2); [|discriminate].
      specialize (H2 eq_refl).
      destruct s as [|e [|e2 s']]; try discriminate.
      * now destruct (N.eqb 96 e).
      * destruct (N.eqb 96 e); [|discriminate].
        destruct (N.eqb 96 e2); discriminate.
Qed.

Lemma strip_fence_no_fence fuel s :
  (List.length s < fuel)%nat ->
  includes (strip_fence fuel s) fence = false.
Proof.
  revert s. induction fuel as [|fuel IH]; intros s Hlen; [lia|].
  pose proof (@strip_fence_head3 (S fuel) s Hlen) as H3.
  unfold strip_fence in *. simpl in *.
  destruct (match_literal_opt_newline fence s) as [rest|] eqn:E.
  - apply match_fence_some in E as [_ E]. apply IH. lia.
  - destruct s as [|c s]; [reflexivity|].
    simpl. rewrite H3. simpl. apply IH. simpl in Hlen. lia.
Qed.

(** No code fence is left by the second replacement. *)
Lemma replace_fence_no_fence (s : jsstring) :
  includes (replace_all (match_literal_opt_newline fence) s) fence = false.
Proof.
  apply strip_fence_no_fence. lia.
Qed.

Lemma includes_fence_semicolon (s : jsstring) :
  includes (s ++ lit ";") fence = includes s fence.
Proof.
  induction s as [|c s IH]; [reflexivity|].
  simpl. rewrite IH. f_equal.
  unfold starts_with. simpl.
  destruct (N.eqb 96 c); [|reflexivity].
  destruct s as [|d s]; [reflexivity|]. simpl.
  destruct (N.eqb 96 d); [|reflexivity].
  destruct s as [|e s]; [reflexivity|]. simpl.
  now destruct (N.eqb 96 e).
Qed.

Lemma endsWith_semicolon_app (s : jsstring) :
  endsWith (s ++ lit ";") (lit ";") = true.
Proof.
  unfold endsWith. rewrite rev_app_distr. reflexivity.
Qed.

Lemma jsstring_eqb_refl (s : jsstring) : jsstring_eqb s s = true.
Proof.
  induction s as [|c s IH]; [reflexivity|].
  simpl. now rewrite N.eqb_refl.
Qed.

Lemma jsstring_eqb_eq (a b : jsstring) : jsstring_eqb a b = true <-> a = b.
Proof.
  split; [|intros ->; apply jsstring_eqb_refl].
  revert b. induction a as [|x a IH]; intros [|y b]; simpl; try discriminate.
  - reflexivity.
  - intros H. apply andb_true_iff in H as [H1 H2].
    apply N.eqb_eq in H1. apply IH in H2. now subst.
Qed.

Lemma jsstring_eqb_neq (a b : jsstring) : a <> b -> jsstring_eqb a b = false.
Proof.
  intros H. destruct (jsstring_eqb a b) eqn:E; [|reflexivity].
  now apply jsstring_eqb_eq in E.
Qed.

(* ================================================================== *)
(** ** The SQL synthesizer *)
(* ================================================================== *)

Lemma generateSQL_run {W} (h : handlers W) (w : W) (userQuery : jsstring) :
  run h (generateSQL userQuery) w =
  let '(o, w') := answer_ai h w (synthesis_request userQuery) in
  {| outcome := match o with
                | AiReturns raw => Returned (normalize_sql raw)
                | AiThrows e => Raised e
                end;
     final := w';
     trace := [EvAi (synthesis_request userQuery) o] |}.
Proof.
  unfold generateSQL, ai_run. simpl.
  destruct (answer_ai h w (synthesis_request userQuery)) as [[raw|e] w'];
    reflexivity.
Qed.

(** C6. Whatever text the model returns, the statement [generateSQL] hands
    on ends with a semicolon, contains no code fence, and has no white space
    at either end; the semicolon is appended exactly when the text left
    after stripping and trimming does not end with one.  When the model call
    returns [raw], [generateSQL] returns [normalize_sql raw]. *)
Theorem generateSQL_normalizes (raw : jsstring) :
  let stripped :=
    trim (replace_all (match_literal_opt_newline (lit "```"))
            (replace_all (match_literal_opt_newline (lit "```sql"))
               (trim raw))) in
  let sql := normalize_sql raw in
  (forall W (h : handlers W) (w w' : W) (userQuery : jsstring),
      answer_ai h w (synthesis_request userQuery) = (AiReturns raw, w') ->
      outcome (run h (generateSQL userQuery) w) = Returned sql)
  /\ endsWith sql (lit ";") = true
  /\ includes sql (lit "```") = false
  /\ (forall c rest, sql = c :: rest -> is_white_space c = false)
  /\ (forall c rest, sql = rest ++ [c] -> is_white_space c = false)
  /\ (endsWith stripped (lit ";") = true -> sql = stripped)
  /\ (endsWith stripped (lit ";") = false -> sql = stripped ++ lit ";").
Proof.
  intros stripped sql.
  assert (Hsql : sql = if negb (endsWith stripped (lit ";"))
                       then stripped ++ lit ";" else stripped) by reflexivity.
  assert (Hfence : includes stripped fence = false).
  { destruct (includes stripped fence) eqn:E; [|reflexivity].
    apply includes_trim in E.
    now rewrite (replace_fence_no_fence _) in E. }
  repeat split.
  - intros W h w w' userQuery H. rewrite generateSQL_run, H. reflexivity.
  - rewrite Hsql. destruct (endsWith stripped (lit ";")) eqn:E; simpl.
    + exact E.
    + apply endsWith_semicolon_app.
  - rewrite Hsql. destruct (endsWith stripped (lit ";")); simpl.
    + exact Hfence.
    + change (lit "```") with fence. now rewrite includes_fence_semicolon.
  - intros c rest H. rewrite Hsql in H.
    destruct (endsWith stripped (lit ";")); simpl in H.
    + now apply trim_no_leading_space in H.
    + destruct stripped as [|d t] eqn:E.
      * now inversion H.
      * inversion H; subst d. now apply trim_no_leading_space in E.
  - intros c rest H. rewrite Hsql in H.
    destruct (endsWith stripped (lit ";")); simpl in H.
    + now apply trim_no_trailing_space in H.
    + apply app_inj_tail in H as [_ <-]. reflexivity.
  - intros E. rewrite Hsql, E. reflexivity.
  - intros E. rewrite Hsql, E. reflexivity.
Qed.

(* ================================================================== *)
(** ** The response composer and its fallback *)
(* ================================================================== *)

Lemma nonempty_app (a b : jsstring) :
  nonempty (a ++ b) = nonempty a || nonempty b.
Proof. now destruct a. Qed.

Lemma nonempty_neq (s : jsstring) : nonempty s = true -> s <> [].
Proof. now destruct s. Qed.

Lemma nonempty_join_head sep p ps :
  nonempty p = true -> nonempty (join sep (p :: ps)) = true.
Proof.
  intros H. destruct ps; simpl; [exact H|].
  now rewrite nonempty_app, H.
Qed.

Ltac nonempty_lit :=
  repeat rewrite nonempty_app;
  repeat first [ reflexivity | apply orb_true_r
               | (apply orb_true_iff; left; reflexivity)
               | (apply orb_true_iff; right) ].

Lemma summary_parts_nonempty (r : row) :
  Forall (fun p => nonempty p = true) (summary_parts r).
Proof.
  unfold summary_parts.
  repeat (apply Forall_app; split);
    match goal with |- Forall _ (if ?c then _ else _) => destruct c end;
    constructor; try constructor; nonempty_lit.
Qed.

Lemma JSON_stringify_object_nonempty members :
  nonempty (JSON_stringify (JObj members)) = true.
Proof.
  unfold JSON_stringify. cbn [SerializeJSON].
  match goal with |- context [match ?parts with [] => _ | _ :: _ => _ end] =>
    destruct parts end; reflexivity.
Qed.

Lemma formatTable_nonempty (r1 r2 : row) (rest : list row) :
  nonempty (formatTable (r1 :: r2 :: rest)) = true.
Proof.
  unfold formatTable. cbn [map join].
  rewrite nonempty_app. apply orb_true_iff. right. reflexivity.
Qed.

Lemma formatSimple_nonempty (results : list row) (userQuery : jsstring) :
  nonempty (formatSimple results userQuery) = true.
Proof.
  destruct results as [|r [|r2 rest]]; [reflexivity| |apply formatTable_nonempty].
  assert (Hmulti : nonempty match summary_parts r with
                            | [] => JSON_stringify (json_of_row r)
                            | p :: ps => join (lit " ") (p :: ps)
                            end = true).
  { pose proof (summary_parts_nonempty r) as F.
    destruct (summary_parts r) as [|p ps].
    - apply JSON_stringify_object_nonempty.
    - inversion F; subst. now apply nonempty_join_head. }
  unfold formatSimple.
  destruct (keys r) as [|key [|k2 ks]]; [exact Hmulti| |exact Hmulti].
  destruct (lookup r key) as [[|n|s]|]; try reflexivity;
    repeat match goal with |- context [if ?c then _ else _] => destruct c end;
    nonempty_lit.
Qed.

Lemma degenerate_answer_length (answer : jsstring) :
  degenerate_answer answer = true <-> (List.length answer < 10)%nat.
Proof.
  unfold degenerate_answer. destruct answer as [|c a]; simpl.
  - split; [lia|reflexivity].
  - rewrite Nat.ltb_lt. simpl. reflexivity.
Qed.

Lemma formatResponse_run {W} (h : handlers W) (w : W)
      (userQuery : jsstring) (results : list row) (sql : jsstring) :
  results <> [] ->
  run h (formatResponse userQuery results sql) w =
  let '(o, w') := answer_ai h w (summary_request userQuery results sql) in
  {| outcome :=
       Returned
         match o with
         | AiReturns text =>
             if degenerate_answer (trim text)
             then formatSimple results userQuery else trim text
         | AiThrows _ => formatSimple results userQuery
         end;
     final := w';
     trace := [EvAi (summary_request userQuery results sql) o] |}.
Proof.
  intros Hne. unfold formatResponse, ai_run.
  destruct results as [|r rest]; [contradiction|].
  cbn [bind try_catch run].
  destruct (answer_ai h w (summary_request userQuery (r :: rest) sql))
    as [[text|e] w']; cbn [bind try_catch run outcome final trace].
  - now destruct (degenerate_answer (trim text)).
  - reflexivity.
Qed.

(** C3. On an empty row sequence [formatResponse] returns the fixed
    explanatory message, which names the three likely causes (spelling of
    the player name, year outside the dataset, team abbreviation), and makes
    no call at all: the trace is empty and the world is untouched. *)
Theorem formatResponse_empty_results
        (W : Type) (h : handlers W) (w : W) (userQuery sql : jsstring) :
  formatResponse userQuery [] sql = Ret NO_RESULTS_MESSAGE
  /\ outcome (run h (formatResponse userQuery [] sql) w)
     = Returned NO_RESULTS_MESSAGE
  /\ trace (run h (formatResponse userQuery [] sql) w) = []
  /\ final (run h (formatResponse userQuery [] sql) w) = w
  /\ includes NO_RESULTS_MESSAGE
       (lit "The player name might be spelled differently") = true
  /\ includes NO_RESULTS_MESSAGE
       (lit "The year might not be in our dataset") = true
  /\ includes NO_RESULTS_MESSAGE
       (lit "The team abbreviation might need adjustment") = true.
Proof.
  repeat split; vm_compute; reflexivity.
Qed.

(** C10. The fallback formatter never reads the user's question: two
    questions over the same rows get the same answer. *)
Theorem formatSimple_ignores_userQuery
        (results : list row) (q1 q2 : jsstring) :
  formatSimple results q1 = formatSimple results q2.
Proof.
  destruct results as [|r [|r2 rest]]; reflexivity.
Qed.

(* ================================================================== *)
(** ** What a run can do to the tables *)
(* ================================================================== *)

(** A program reaches the world only through its calls: if the AI service
    leaves a part [tables] of the world alone, and so does the engine on
    every statement the run hands it, that part is the same after the run. *)
Lemma run_frame {W T A} (tables : W -> T) (h : handlers W) (p : prog A) :
  (forall w req, tables (snd (answer_ai h w req)) = tables w) ->
  forall w,
    (forall sql, In sql (db_statements (trace (run h p w))) ->
                 forall w0, tables (snd (answer_db h w0 sql)) = tables w0) ->
    tables (final (run h p w)) = tables w.
Proof.
  intros Hai. induction p as [a|e|req k IH|sql k IH]; intros w Hdb;
    try reflexivity.
  - specialize (Hai w req). simpl in *.
    destruct (answer_ai h w req) as [o w1]. simpl in *.
    rewrite IH; [exact Hai|exact Hdb].
  - pose proof (Hdb sql) as Hsql. simpl in *.
    destruct (answer_db h w sql) as [o w1] eqn:E. simpl in *.
    rewrite IH.
    + specialize (Hsql (or_introl eq_refl) w). now rewrite E in Hsql.
    + intros sql' Hin. apply Hdb. now right.
Qed.

(* ================================================================== *)
(** ** The request handler *)
(* ================================================================== *)

Section WorkerProperties.

Variable HTML_CONTENT : jsstring.
Variable null_destructuring_message : jsstring.

Lemma fetch_chat_route (request : Request) :
  method request = lit "POST" ->
  pathname request = lit "/api/chat" ->
  fetch HTML_CONTENT null_destructuring_message request =
  try_catch (chat null_destructuring_message request)
            (fun error =>
               message <- read_message error ;;
               Ret (error_response message)).
Proof.
  intros Hm Hp. unfold fetch. rewrite Hm, Hp. reflexivity.
Qed.

Lemma fetch_accepted {W} (h : handlers W) (w : W) (request : Request)
      (v : json) (userQuery : jsstring) :
  method request = lit "POST" ->
  pathname request = lit "/api/chat" ->
  body request = BodyJson v ->
  v <> JNull ->
  get_property v (lit "message") = Some (JStr userQuery) ->
  userQuery <> [] ->
  run h (fetch HTML_CONTENT null_destructuring_message request) w
  = pipeline_run h w userQuery.
Proof.
  intros Hm Hp Hb Hv Hmsg Hne.
  rewrite (fetch_chat_route _ Hm Hp). unfold chat. rewrite Hb.
  destruct v as [|b|n|s|items|members]; try (simpl in Hmsg; discriminate).
  rewrite Hmsg. destruct userQuery as [|c m]; [contradiction|].
  unfold pipeline_run, generateSQL, executeQuery, ai_run, db_prepare_all.
  cbn [bind try_catch run].
  destruct (answer_ai h w (synthesis_request (c :: m))) as [[raw|e] w1];
    cbn [bind try_catch run outcome final trace];
    [|destruct e; reflexivity].
  destruct (answer_db h w1 (normalize_sql raw)) as [[res|e] w2];
    cbn [bind try_catch run outcome final trace];
    [|destruct e as [message|[message|raised]]; reflexivity].
  destruct res as [[|r rows]|];
    cbn [bind try_catch run outcome final trace formatResponse];
    try reflexivity.
  unfold ai_run. cbn [bind try_catch run].
  destruct (answer_ai h w2 _) as [[text|e] w3];
    cbn [bind try_catch run outcome final trace]; [|reflexivity].
  now destruct (degenerate_answer (trim text)).
Qed.

(** C1. With at least one row, a summarization call that throws, or that
    returns fewer than ten code units once trimmed, makes [formatResponse]
    return the output of [formatSimple]; that output is not empty; and the
    request completes with the success envelope carrying it, not with an
    error. *)
Theorem summarization_degradation_is_masked
        (W : Type) (h : handlers W) (w w' : W) (userQuery sql : jsstring)
        (results : list row) (o : ai_outcome) :
  results <> [] ->
  answer_ai h w (summary_request userQuery results sql) = (o, w') ->
  degraded o ->
  outcome (run h (formatResponse userQuery results sql) w)
  = Returned (formatSimple results userQuery)
  /\ formatSimple results userQuery <> []
  /\ forall (request : Request) (v : json) (w0 w1 : W) (raw : jsstring),
      method request = lit "POST" ->
      pathname request = lit "/api/chat" ->
      body request = BodyJson v ->
      v <> JNull ->
      get_property v (lit "message") = Some (JStr userQuery) ->
      userQuery <> [] ->
      answer_ai h w0 (synthesis_request userQuery) = (AiReturns raw, w1) ->
      sql = normalize_sql raw ->
      answer_db h w1 sql = (DbReturns (Some results), w) ->
      outcome (run h (fetch HTML_CONTENT null_destructuring_message request) w0)
      = Returned (ok_response (formatSimple results userQuery) sql results)
      /\ status (ok_response (formatSimple results userQuery) sql results)
         = 200%N.
Proof.
  intros Hne Hai Hdeg.
  assert (Hfallback :
            match o with
            | AiReturns text =>
                if degenerate_answer (trim text)
                then formatSimple results userQuery else trim text
            | AiThrows _ => formatSimple results userQuery
            end = formatSimple results userQuery).
  { destruct o as [text|e]; [|reflexivity]. simpl in Hdeg.
    apply degenerate_answer_length in Hdeg. now rewrite Hdeg. }
  split; [|split].
  - rewrite (formatResponse_run h w userQuery sql Hne), Hai.
    cbn [outcome]. now rewrite Hfallback.
  - apply nonempty_neq, formatSimple_nonempty.
  - intros request v w0 w1 raw Hm Hp Hb Hv Hmsg Hq Hsyn Hsql Hdb.
    split; [|reflexivity].
    rewrite (fetch_accepted h w0 request Hm Hp Hb Hv Hmsg Hq).
    unfold pipeline_run. rewrite Hsyn. rewrite <- Hsql, Hdb.
    destruct results as [|r rows]; [contradiction|].
    rewrite Hai. cbn [outcome]. now rewrite Hfallback.
Qed.

(** The input guard on the bodies it reaches.  A [POST /api/chat] request
    whose body parses to a value other than [null]: when its [message] is a
    non-empty string the guard lets it through and the first outbound call
    is the SQL synthesis for that message; when its [message] is missing or
    not a string the handler answers 400 at once, with no call made. *)
Theorem input_guard
        (W : Type) (h : handlers W) (w : W) (request : Request) (v : json) :
  method request = lit "POST" ->
  pathname request = lit "/api/chat" ->
  body request = BodyJson v ->
  v <> JNull ->
  (forall userQuery,
      get_property v (lit "message") = Some (JStr userQuery) ->
      userQuery <> [] ->
      exists o rest,
        trace (run h (fetch HTML_CONTENT null_destructuring_message request) w)
        = EvAi (synthesis_request userQuery) o :: rest)
  /\ ((forall s, get_property v (lit "message") <> Some (JStr s)) ->
      fetch HTML_CONTENT null_destructuring_message request
      = Ret invalid_message_response
      /\ status invalid_message_response = 400%N
      /\ response_body invalid_message_response
         = Some (JSON_stringify (JObj [(lit "error",
                                        JStr (lit "Invalid message"))]))
      /\ trace (run h (fetch HTML_CONTENT null_destructuring_message request) w)
         = []).
Proof.
  intros Hm Hp Hb Hv. split.
  - intros userQuery Hmsg Hq.
    rewrite (fetch_accepted h w request Hm Hp Hb Hv Hmsg Hq).
    unfold pipeline_run.
    destruct (answer_ai h w (synthesis_request userQuery)) as [[raw|e] w1].
    + destruct (answer_db h w1 (normalize_sql raw)) as [[[[|r rows]|]|e] w2];
        try (eexists; eexists; reflexivity).
      destruct (answer_ai h w2 _) as [o3 w3]. eexists; eexists; reflexivity.
    + eexists; eexists; reflexivity.
  - intros Hbad.
    assert (Hfetch : fetch HTML_CONTENT null_destructuring_message request
                     = Ret invalid_message_response).
    { rewrite (fetch_chat_route _ Hm Hp). unfold chat. rewrite Hb.
      destruct v as [|b|n|s|items|members]; try reflexivity; [contradiction|].
      destruct (get_property (JObj members) (lit "message"))
        as [[|b|n|[|c m]|items|ms]|] eqn:E; try reflexivity.
      now elim (Hbad (c :: m)). }
    rewrite Hfetch. repeat split; reflexivity.
Qed.

Lemma ok_response_envelope response sql rows :
  json_envelope (ok_response response sql rows).
Proof.
  repeat split. left. split; [reflexivity|].
  now exists response, sql, rows.
Qed.

Lemma error_response_envelope message :
  json_envelope (error_response message).
Proof.
  split; [reflexivity|]. split; [reflexivity|].
  right. right. split; [reflexivity|].
  exists (if ToBoolean message then message
          else PStr (lit "An error occurred")).
  split; [|reflexivity].
  now destruct (ToBoolean message) eqn:E.
Qed.

Lemma invalid_message_response_envelope :
  json_envelope invalid_message_response.
Proof.
  repeat split. right. left. split; [reflexivity|].
  eexists. reflexivity.
Qed.

Lemma caught_envelope (e : js_error) (r : Response) :
  caught e = Returned r -> json_envelope r.
Proof.
  destruct e as [message|raised]; [|discriminate].
  intros H. inversion H. apply error_response_envelope.
Qed.

Lemma composed_answer_nonempty userQuery rows o :
  nonempty (composed_answer userQuery rows o) = true.
Proof.
  destruct o as [text|e]; simpl; [|apply formatSimple_nonempty].
  destruct (degenerate_answer (trim text)) eqn:E.
  - apply formatSimple_nonempty.
  - now destruct (trim text).
Qed.

Lemma pipeline_run_envelope {W} (h : handlers W) (w : W) userQuery r :
  outcome (pipeline_run h w userQuery) = Returned r -> json_envelope r.
Proof.
  unfold pipeline_run.
  destruct (answer_ai h w (synthesis_request userQuery)) as [[raw|e] w1];
    [|apply caught_envelope].
  destruct (answer_db h w1 (normalize_sql raw)) as [[[[|r0 rows]|]|e] w2];
    try apply caught_envelope;
    try (intros H; inversion H; apply ok_response_envelope).
  destruct (answer_ai h w2 _) as [o3 w3].
  intros H. inversion H. apply ok_response_envelope.
Qed.

(** The answers of the chat route that need no call. *)
Lemma chat_without_calls (request : Request) :
  method request = lit "POST" ->
  pathname request = lit "/api/chat" ->
  (forall e, body request = BodyInvalid e ->
     fetch HTML_CONTENT null_destructuring_message request
     = (message <- read_message e ;; Ret (error_response message)))
  /\ (body request = BodyJson JNull ->
      fetch HTML_CONTENT null_destructuring_message request
      = Ret (error_response (PStr null_destructuring_message)))
  /\ (forall v, body request = BodyJson v -> v <> JNull ->
        (forall c m, get_property v (lit "message") <> Some (JStr (c :: m))) ->
        fetch HTML_CONTENT null_destructuring_message request
        = Ret invalid_message_response).
Proof.
  intros Hm Hp. rewrite (fetch_chat_route _ Hm Hp). unfold chat.
  split; [|split].
  - intros e ->. reflexivity.
  - intros ->. reflexivity.
  - intros v -> Hv Hbad.
    destruct v as [|b|n|s|items|members]; try reflexivity; [contradiction|].
    destruct (get_property (JObj members) (lit "message"))
      as [[|b|n|[|c m]|items|ms]|] eqn:E; try reflexivity.
    now elim (Hbad c m).
Qed.

Lemma run_read_message {W} (h : handlers W) (w : W) (e : js_error) :
  run h (message <- read_message e ;; Ret (error_response message)) w
  = {| outcome := caught e; final := w; trace := [] |}.
Proof. destruct e; reflexivity. Qed.


(** C8, as the code has it.  [GET /] and [GET /index.html] get the page
    with status 200 and [Content-Type: text/html]; the page route looks at
    the path only, so every other method except [OPTIONS] gets the page
    there too.  A request whose method is not [OPTIONS], whose path is
    neither of the two, and which is not [POST /api/chat], gets 404 with the
    plain-text body [Not found]. *)
Theorem fetch_routes (request : Request) :
  let page_served :=
    fetch HTML_CONTENT null_destructuring_message request
    = Ret (html_response HTML_CONTENT)
    /\ status (html_response HTML_CONTENT) = 200%N
    /\ get_header (lit "Content-Type") (headers (html_response HTML_CONTENT))
       = Some (lit "text/html")
    /\ response_body (html_response HTML_CONTENT) = Some HTML_CONTENT in
  (method request = lit "GET" ->
   pathname request = lit "/" \/ pathname request = lit "/index.html" ->
   page_served)
  /\ (method request <> lit "OPTIONS" ->
      pathname request = lit "/" \/ pathname request = lit "/index.html" ->
      page_served)
  /\ (method request <> lit "OPTIONS" ->
      pathname request <> lit "/" ->
      pathname request <> lit "/index.html" ->
      ~ (pathname request = lit "/api/chat" /\ method request = lit "POST") ->
      fetch HTML_CONTENT null_destructuring_message request
      = Ret not_found_response
      /\ status not_found_response = 404%N
      /\ response_body not_found_response = Some (lit "Not found")
      /\ get_header (lit "Content-Type") (headers not_found_response)
         = Some (lit "text/plain;charset=UTF-8")).
Proof.
  intros page_served.
  assert (Hpage : jsstring_eqb (method request) (lit "OPTIONS") = false ->
                  pathname request = lit "/"
                  \/ pathname request = lit "/index.html" ->
                  page_served).
  { intros Hopt Hp. unfold page_served. split; [|repeat split].
    unfold fetch. rewrite Hopt. destruct Hp as [-> | ->]; reflexivity. }
  split; [|split].
  - intros Hm. apply Hpage. now rewrite Hm.
  - intros Hm. apply Hpage. now apply jsstring_eqb_neq.
  - intros Hm H1 H2 Hchat. split; [|repeat split].
    unfold fetch.
    rewrite (jsstring_eqb_neq Hm), (jsstring_eqb_neq H1),
      (jsstring_eqb_neq H2).
    destruct (jsstring_eqb (pathname request) (lit "/api/chat")) eqn:E1;
      [|reflexivity].
    destruct (jsstring_eqb (method request) (lit "POST")) eqn:E2;
      [|reflexivity].
    apply jsstring_eqb_eq in E1, E2. now elim Hchat.
Qed.

(** A request either makes no call at all, or is an accepted message and
    runs the pipeline on it. *)
Lemma fetch_run_cases {W} (h : handlers W) (w : W) (request : Request) :
  (trace (run h (fetch HTML_CONTENT null_destructuring_message request) w)
   = []
   /\ final (run h (fetch HTML_CONTENT null_destructuring_message request) w)
      = w)
  \/ (exists v userQuery,
        method request = lit "POST"
        /\ pathname request = lit "/api/chat"
        /\ body request = BodyJson v
        /\ get_property v (lit "message") = Some (JStr userQuery)
        /\ userQuery <> []
        /\ run h (fetch HTML_CONTENT null_destructuring_message request) w
           = pipeline_run h w userQuery).
Proof.
  destruct (jsstring_eqb (method request) (lit "OPTIONS")) eqn:Hopt.
  { left. unfold fetch. rewrite Hopt. split; reflexivity. }
  destruct (jsstring_eqb (pathname request) (lit "/api/chat")
            && jsstring_eqb (method request) (lit "POST")) eqn:Hchat.
  - apply andb_true_iff in Hchat as [Hp Hm].
    apply jsstring_eqb_eq in Hp, Hm.
    destruct (chat_without_calls request Hm Hp) as (Hinvalid & Hnull & Hguard).
    destruct (body request) as [v|e] eqn:Hb.
    + destruct v as [|b|n|s|items|members] eqn:Ev;
        try (left;
             rewrite (Hguard _ eq_refl ltac:(discriminate)
                             ltac:(intros; discriminate));
             split; reflexivity).
      * left. rewrite (Hnull eq_refl). split; reflexivity.
      * destruct (get_property (JObj members) (lit "message"))
          as [[|b|n|[|c m]|items|ms]|] eqn:Hmsg;
          try (left;
               rewrite (Hguard _ eq_refl ltac:(discriminate)
                               ltac:(intros; rewrite Hmsg; discriminate));
               split; reflexivity).
        right. exists (JObj members), (c :: m).
        repeat (split; [first [assumption|reflexivity|discriminate]|]).
        apply (fetch_accepted h w request Hm Hp Hb);
          [discriminate|exact Hmsg|discriminate].
    + left. rewrite (Hinvalid e eq_refl), run_read_message.
      split; reflexivity.
  - left. unfold fetch. rewrite Hopt, Hchat.
    destruct (jsstring_eqb (pathname request) (lit "/")
              || jsstring_eqb (pathname request) (lit "/index.html"));
      split; reflexivity.
Qed.

(** C9, as the code has it.  The pipeline has no write path of its own.  A
    request hands D1 no statement at all, and then the tables are as they
    were; or it is an accepted message, the one statement it hands D1 is the
    normalized text of the completion that the synthesis call returned for
    that message, and the tables are, when the request completes, as the
    engine left them on that statement.  So they are unchanged whenever the
    engine leaves them alone on that statement.  The AI service is assumed
    not to touch the tables. *)
Theorem tables_change_only_through_the_statement
        (W T : Type) (tables : W -> T) (h : handlers W) (w : W)
        (request : Request) :
  (forall w0 req, tables (snd (answer_ai h w0 req)) = tables w0) ->
  let result :=
    run h (fetch HTML_CONTENT null_destructuring_message request) w in
  (db_statements (trace result) = [] /\ tables (final result) = tables w)
  \/ (exists v userQuery raw w1,
        method request = lit "POST"
        /\ pathname request = lit "/api/chat"
        /\ body request = BodyJson v
        /\ get_property v (lit "message") = Some (JStr userQuery)
        /\ answer_ai h w (synthesis_request userQuery) = (AiReturns raw, w1)
        /\ db_statements (trace result) = [normalize_sql raw]
        /\ tables w1 = tables w
        /\ tables (final result)
           = tables (snd (answer_db h w1 (normalize_sql raw)))
        /\ ((forall w0,
               tables (snd (answer_db h w0 (normalize_sql raw))) = tables w0) ->
            tables (final result) = tables w)).
Proof.
  intros Hai result.
  destruct (fetch_run_cases h w request)
    as [[Htr Hfin]|(v & userQuery & Hm & Hp & Hb & Hmsg & Hq & Hrun)].
  { left. unfold result. rewrite Htr, Hfin. split; reflexivity. }
  unfold result. rewrite Hrun. unfold pipeline_run.
  pose proof (Hai w (synthesis_request userQuery)) as H1.
  destruct (answer_ai h w (synthesis_request userQuery)) as [[raw|e] w1]
    eqn:E1; simpl in H1.
  2:{ left. split; [reflexivity|exact H1]. }
  right. exists v, userQuery, raw, w1.
  do 5 (split; [assumption|]).
  destruct (answer_db h w1 (normalize_sql raw)) as [o2 w2] eqn:E2.
  cbn [snd].
  assert (Hcase :
            forall (r : run_result W Response) (w3 : W),
              tables w3 = tables w2 ->
              db_statements (trace r) = [normalize_sql raw] ->
              final r = w3 ->
              db_statements (trace r) = [normalize_sql raw]
              /\ tables w1 = tables w
              /\ tables (final r) = tables w2
              /\ ((forall w0,
                      tables (snd (answer_db h w0 (normalize_sql raw)))
                      = tables w0) ->
                  tables (final r) = tables w)).
  { intros r w3 H3 Htr Hfin. rewrite Hfin.
    split; [exact Htr|]. split; [exact H1|]. split; [exact H3|].
    intros Hdb. specialize (Hdb w1). rewrite E2 in Hdb. simpl in Hdb.
    congruence. }
  destruct o2 as [[[|r0 rows0]|]|e];
    try (apply (Hcase _ w2); reflexivity).
  pose proof (Hai w2 (summary_request userQuery (r0 :: rows0)
                                      (normalize_sql raw))) as H3.
  destruct (answer_ai h w2 _) as [o3 w3]. simpl in H3.
  apply (Hcase _ w3); [exact H3|reflexivity|reflexivity].
Qed.

End WorkerProperties.

(* ================================================================== *)
(** ** The fallback formatter on aggregates and tables *)
(* ================================================================== *)

(** *** Two decimal places *)

Lemma uint_units_digits (u : Decimal.uint) :
  Forall (fun c => is_digit c = true) (uint_units u).
Proof.
  induction u; simpl; constructor; auto.
Qed.

Lemma zeros_digits (n : nat) : Forall (fun c => is_digit c = true) (zeros n).
Proof.
  induction n; simpl; constructor; auto.
Qed.

Lemma fixed_digits_two_decimals (n : N) :
  exists int_part f1 f2,
    fixed_digits n 2 = int_part ++ lit "." ++ [f1; f2]
    /\ int_part <> []
    /\ Forall (fun c => is_digit c = true) int_part
    /\ is_digit f1 = true /\ is_digit f2 = true.
Proof.
  unfold fixed_digits.
  set (m := zeros (3 - List.length (digits_of_N n)) ++ digits_of_N n).
  assert (Hm : Forall (fun c => is_digit c = true) m).
  { apply Forall_app. split; [apply zeros_digits|apply uint_units_digits]. }
  assert (Hlen : (3 <= List.length m)%nat).
  { unfold m, zeros. rewrite length_app, repeat_length. lia. }
  rewrite <- (firstn_skipn (List.length m - 2) m) in Hm.
  apply Forall_app in Hm as [Hi Hf].
  assert (Hil : List.length (firstn (List.length m - 2) m)
                = (List.length m - 2)%nat) by (rewrite length_firstn; lia).
  assert (Hfl : List.length (skipn (List.length m - 2) m) = 2%nat)
    by (rewrite length_skipn; lia).
  destruct (skipn (List.length m - 2) m) as [|f1 [|f2 [|f3 t]]];
    try discriminate.
  exists (firstn (List.length m - 2) m), f1, f2.
  inversion Hf as [|? ? Hf1 Hf']; subst. inversion Hf' as [|? ? Hf2 _]; subst.
  repeat split; auto.
  intros E. rewrite E in Hil. simpl in Hil. lia.
Qed.

Lemma toFixed2_two_decimals (x : number) :
  below_1e21 x = true -> two_decimals (Number_toFixed2 x).
Proof.
  unfold below_1e21, Number_toFixed2.
  destruct (canon x) as [| |neg m e]; try discriminate.
  intros H. apply negb_true_iff in H. rewrite H.
  destruct (fixed_digits_two_decimals
              (Z.to_N (Qfloor (magnitude m e * (100 # 1) + (1 # 2)))))
    as (ip & f1 & f2 & E & Hip & Hd & H1 & H2).
  exists (if neg && negb (m =? 0)%N then lit "-" else []), ip, f1, f2.
  rewrite E. repeat split; auto.
  destruct (neg && negb (m =? 0)%N); auto.
Qed.

(** C2, as the code has it.  One row with one column.  A value that is
    null gives [No data available.], whatever the column name.  A value that
    is not null: a column name containing [SUM(] gives
    [The total is {value}.]; otherwise one containing [AVG(] gives
    [The average is ] followed by [parseFloat(value).toFixed(2)] and a full
    stop, which has two decimal places when the parsed number is finite and
    below [10^21]; otherwise one containing [COUNT(] gives
    [The count is {value}.].  The row [{"SUM(W)": 94}] gives exactly
    [The total is 94.]. *)
Theorem formatSimple_single_aggregate
        (key : jsstring) (value : colval) (userQuery : jsstring) :
  let answer := formatSimple [[(key, value)]] userQuery in
  (value = VNull -> answer = lit "No data available.")
  /\ (value <> VNull ->
      (includes key (lit "SUM(") = true ->
       answer = lit "The total is " ++ ToString (Some value) ++ lit ".")
      /\ (includes key (lit "SUM(") = false ->
          includes key (lit "AVG(") = true ->
          answer = lit "The average is "
                   ++ Number_toFixed2 (parseFloat (ToString (Some value)))
                   ++ lit ".")
      /\ (includes key (lit "SUM(") = false ->
          includes key (lit "AVG(") = false ->
          includes key (lit "COUNT(") = true ->
          answer = lit "The count is " ++ ToString (Some value) ++ lit "."))
  /\ (below_1e21 (parseFloat (ToString (Some value))) = true ->
      two_decimals (Number_toFixed2 (parseFloat (ToString (Some value)))))
  /\ formatSimple [[(lit "SUM(W)", VNum (of_Z 94))]] userQuery
     = lit "The total is 94.".
Proof.
  intros answer.
  assert (Hread : answer =
                  match value with
                  | VNull => lit "No data available."
                  | _ =>
                      if includes key (lit "SUM(")
                      then lit "The total is " ++ ToString (Some value)
                           ++ lit "."
                      else if includes key (lit "AVG(")
                      then lit "The average is "
                           ++ Number_toFixed2
                                (parseFloat (ToString (Some value)))
                           ++ lit "."
                      else if includes key (lit "COUNT(")
                      then lit "The count is " ++ ToString (Some value)
                           ++ lit "."
                      else lit "Result: " ++ key ++ lit " = "
                           ++ ToString (Some value)
                  end).
  { unfold answer, formatSimple. cbn [keys map fst lookup].
    rewrite jsstring_eqb_refl. now destruct value. }
  split; [|split; [|split]].
  - intros ->. exact Hread.
  - intros Hv.
    assert (Hanswer :
              answer =
              if includes key (lit "SUM(")
              then lit "The total is " ++ ToString (Some value) ++ lit "."
              else if includes key (lit "AVG(")
              then lit "The average is "
                   ++ Number_toFixed2 (parseFloat (ToString (Some value)))
                   ++ lit "."
              else if includes key (lit "COUNT(")
              then lit "The count is " ++ ToString (Some value) ++ lit "."
              else lit "Result: " ++ key ++ lit " = "
                   ++ ToString (Some value)).
    { rewrite Hread. destruct value; [contradiction|reflexivity|reflexivity]. }
    split; [|split].
    + intros H. now rewrite Hanswer, H.
    + intros H1 H2. now rewrite Hanswer, H1, H2.
    + intros H1 H2 H3. now rewrite Hanswer, H1, H2, H3.
  - apply toFixed2_two_decimals.
  - vm_compute. reflexivity.
Qed.

(** C7, as the code has it.  For two or more rows, [formatTable] gives the
    header (the column names of the first row, in order), the separator, and
    one line per record, joined by line feeds; each line has one cell per
    header column; a null value gives an empty cell; a number gives
    [toFixed(2)], which has exactly two decimal places when the number is
    finite and below [10^21] in magnitude. *)
Theorem formatTable_layout (r1 r2 : row) (rest : list row) :
  let results := r1 :: r2 :: rest in
  let columns := keys r1 in
  exists lines : list jsstring,
    formatTable results
    = join newline
        (join (lit " | ") columns
         :: join (lit " | ") (map (fun _ => lit "---") columns)
         :: lines)
    /\ List.length lines = List.length results
    /\ forall i r,
        nth_error results i = Some r ->
        exists cells : list jsstring,
          nth_error lines i = Some (join (lit " | ") cells)
          /\ List.length cells = List.length columns
          /\ forall j key,
              nth_error columns j = Some key ->
              exists cell,
                nth_error cells j = Some cell
                /\ (lookup r key = Some VNull -> cell = [])
                /\ (forall n, lookup r key = Some (VNum n) ->
                      cell = Number_toFixed2 n
                      /\ (below_1e21 n = true -> two_decimals cell)).
Proof.
  intros results columns.
  set (cell_of := fun (r : row) (key : jsstring) =>
                    table_cell (row_get r key)).
  set (line_of := fun r : row => join (lit " | ") (map (cell_of r) columns)).
  exists (map line_of results).
  split; [reflexivity|]. split; [apply length_map|].
  intros i r Hi.
  exists (map (cell_of r) columns).
  split; [exact (map_nth_error line_of i results Hi)|].
  split; [apply length_map|].
  intros j key Hj. exists (cell_of r key).
  split; [exact (map_nth_error (cell_of r) j columns Hj)|].
  unfold cell_of, row_get. split.
  - intros ->. reflexivity.
  - intros n ->. split; [reflexivity|]. apply toFixed2_two_decimals.
Qed.

(* ================================================================== *)
(** ** Concrete runs *)
(* ================================================================== *)

(** C1, at the Yankees question: the summarization call fails, and the
    composer still answers from the rows. *)
Lemma yankees_answer_survives_degradation :
  yankees_rows <> []
  /\ degraded (AiThrows (Error (lit "upstream timeout")))
  /\ outcome (run (sample_service yankees_completion yankees_rows)
                  (formatResponse yankees_question yankees_rows
                                  (normalize_sql yankees_completion))
                  sample_tables)
     = Returned (formatSimple yankees_rows yankees_question).
Proof.
  split; [discriminate|]. split; [exact I|].
  exact (proj1 (@summarization_degradation_is_masked
                  sample_page sample_type_error tables
                  (sample_service yankees_completion yankees_rows)
                  sample_tables sample_tables yankees_question
                  (normalize_sql yankees_completion) yankees_rows
                  (AiThrows (Error (lit "upstream timeout")))
                  ltac:(discriminate) eq_refl I)).
Defined.

(** C2, at a count. *)
Lemma count_of_twelve :
  VNum (of_Z 12) <> VNull
  /\ formatSimple [[(lit "COUNT(*)", VNum (of_Z 12))]] yankees_question
     = lit "The count is " ++ ToString (Some (VNum (of_Z 12))) ++ lit ".".
Proof.
  split; [discriminate|].
  exact (proj2 (proj2
           (proj1 (proj2 (@formatSimple_single_aggregate
                            (lit "COUNT(*)") (VNum (of_Z 12))
                            yankees_question))
                  ltac:(discriminate)))
         eq_refl eq_refl eq_refl).
Defined.

(** C2 fails as stated: a [SUM(] column holding null is answered with
    [No data available.], not with a total. *)
Lemma null_total_is_no_data :
  includes (lit "SUM(W)") (lit "SUM(") = true
  /\ formatSimple [[(lit "SUM(W)", VNull)]] yankees_question
     = lit "No data available."
  /\ formatSimple [[(lit "SUM(W)", VNull)]] yankees_question
     <> lit "The total is " ++ ToString (Some VNull) ++ lit ".".
Proof.
  split; [reflexivity|]. split; [reflexivity|].
  vm_compute. discriminate.
Qed.

(** The guard at a body without a [message]. *)
Lemma missing_message_is_rejected :
  JObj [] <> JNull
  /\ fetch sample_page sample_type_error (chat_request (JObj []))
     = Ret invalid_message_response.
Proof.
  split; [discriminate|].
  exact (proj1 (proj2 (@input_guard
                         sample_page sample_type_error tables
                         (sample_service yankees_completion yankees_rows)
                         sample_tables (chat_request (JObj [])) (JObj [])
                         eq_refl eq_refl eq_refl ltac:(discriminate))
                ltac:(intros s; discriminate))).
Defined.

(** C4 at the body [null]: it has no [message] field, the destructuring
    throws before the guard is reached, and the answer is the 500 envelope
    with the TypeError's message, not the 400 the guard gives every other
    body without a [message]. *)
Lemma null_body_is_a_server_error :
  get_property JNull (lit "message") = None
  /\ fetch sample_page sample_type_error (chat_request JNull)
     = Ret (error_response (PStr sample_type_error))
  /\ status (error_response (PStr sample_type_error)) = 500%N
  /\ status (error_response (PStr sample_type_error)) <> 400%N.
Proof.
  repeat split. discriminate.
Qed.



(** C7 fails as stated: 1e21 is a number, and its cell is [1e+21]. *)
Lemma sextillion_cell_has_no_decimals :
  formatTable [ [(lit "x", VNum sextillion)]; [(lit "x", VNum sextillion)] ]
  = join newline [lit "x"; lit "---"; lit "1e+21"; lit "1e+21"]
  /\ ~ two_decimals (lit "1e+21").
Proof.
  split; [vm_compute; reflexivity|].
  intros (sign & ip & f1 & f2 & E & _).
  apply (f_equal (@rev _)) in E.
  rewrite !rev_app_distr in E. simpl in E. discriminate.
Qed.

(** C8 fails as stated: [POST /] is not one of the listed routes, and it
    gets the page with status 200, not 404. *)
Lemma post_to_root_gets_the_page :
  let request := {| method := lit "POST"; pathname := lit "/";
                    body := BodyJson (JObj []) |} in
  fetch sample_page sample_type_error request
  = Ret (html_response sample_page)
  /\ status (html_response sample_page) = 200%N
  /\ status (html_response sample_page) <> 404%N.
Proof.
  repeat split. discriminate.
Qed.

(** C9, at the Yankees question: the statement is a [SELECT], the engine
    leaves the tables alone on it, and they are the same afterwards. *)
Lemma yankees_question_leaves_tables :
  final (run (sample_service yankees_completion yankees_rows)
             (fetch sample_page sample_type_error
                    (chat_request (message_body yankees_question)))
             sample_tables)
  = sample_tables.
Proof.
  destruct (@tables_change_only_through_the_statement
              sample_page sample_type_error tables tables (fun w => w)
              (sample_service yankees_completion yankees_rows)
              sample_tables
              (chat_request (message_body yankees_question)))
    as [[_ H]|(v & q & raw & w1 & _ & _ & _ & _ & Hai & _ & _ & _ & H)].
  - intros w0 req. simpl. now destruct (max_tokens req =? 500)%N.
  - exact H.
  - apply H. intros w0. simpl in Hai. inversion Hai. reflexivity.
Defined.

(** C9 fails as stated: when the model writes a [DELETE], the pipeline hands
    it to the engine unchanged, and [people] is empty afterwards. *)
Lemma delete_statement_reaches_the_tables :
  let r := run (sample_service (lit "DELETE FROM people") [])
               (fetch sample_page sample_type_error
                      (chat_request (message_body (lit "Remove every player"))))
               sample_tables in
  db_statements (trace r) = [delete_people]
  /\ people (final r) = []
  /\ final r <> sample_tables.
Proof.
  vm_compute. repeat split. discriminate.
Qed.

(* ================================================================== *)
(** ** The built-ins and the normalization on known values *)
(* ================================================================== *)

Example normalize_fenced_completion :
  normalize_sql (lit "```sql" ++ newline ++ lit "SELECT 1" ++ newline
                 ++ lit "```")
  = lit "SELECT 1;".
Proof. vm_compute. reflexivity. Qed.

Example normalize_padded_completion :
  normalize_sql (lit "  SELECT name FROM teams;  " ++ newline)
  = lit "SELECT name FROM teams;".
Proof. vm_compute. reflexivity. Qed.

Example normalize_empty_completion : normalize_sql [] = lit ";".
Proof. vm_compute. reflexivity. Qed.

Example normalize_four_backticks : normalize_sql (lit "````") = lit "`;".
Proof. vm_compute. reflexivity. Qed.

Example toString_known_values :
  map Number_toString
      [ of_Z 94; of_Z (-5); parseFloat (lit "0.1"); parseFloat (lit "2.50");
        parseFloat (lit "1e21"); parseFloat (lit "1e-7"); Finite false 1 60;
        parseFloat (lit "abc"); parseFloat (lit "-12.5 wins") ]
  = [ lit "94"; lit "-5"; lit "0.1"; lit "2.5"; lit "1e+21"; lit "1e-7";
      lit "1152921504606847000"; lit "NaN"; lit "-12.5" ].
Proof. vm_compute. reflexivity. Qed.

Example toFixed_known_values :
  map Number_toFixed2
      [ of_Z 94; parseFloat (lit "3.14159"); parseFloat (lit "1.005");
        parseFloat (lit "8.345"); parseFloat (lit "0.125");
        parseFloat (lit "-0.001"); sextillion; NaN ]
  = [ lit "94.00"; lit "3.14"; lit "1.00"; lit "8.35"; lit "0.13";
      lit "-0.00"; lit "1e+21"; lit "NaN" ].
Proof. vm_compute. reflexivity. Qed.

Example formatSimple_named_row :
  formatSimple
    [ [ (lit "nameFirst", VStr (lit "Jacob"));
        (lit "nameLast", VStr (lit "deGrom"));
        (lit "ERA", VNum (parseFloat (lit "2.671")));
        (lit "yearID", VNum (of_Z 2023)) ] ]
    yankees_question
  = lit "Jacob deGrom ERA: 2.67 (2023)".
Proof. vm_compute. reflexivity. Qed.

Example formatTable_two_rows :
  formatTable
    [ [ (lit "name", VStr (lit "Seattle Mariners")); (lit "W", VNum (of_Z 88));
        (lit "L", VNull) ];
      [ (lit "name", VStr (lit "Houston Astros")); (lit "W", VNum (of_Z 90));
        (lit "L", VNum (of_Z 72)) ] ]
  = join newline
      [ lit "name | W | L";
        lit "--- | --- | ---";
        lit "Seattle Mariners | 88.00 | ";
        lit "Houston Astros | 90.00 | 72.00" ].
Proof. vm_compute. reflexivity. Qed.

(* ================================================================== *)
(** ** More on the request handler *)
(* ================================================================== *)

Section HandlerCoverage.

Variable HTML_CONTENT : jsstring.
Variable null_destructuring_message : jsstring.

(** The chat route: an answer without a call, or the pipeline. *)
Lemma chat_route_cases {W} (h : handlers W) (w : W) (request : Request) :
  method request = lit "POST" ->
  pathname request = lit "/api/chat" ->
  (exists c,
      run h (fetch HTML_CONTENT null_destructuring_message request) w
      = {| outcome := c; final := w; trace := [] |}
      /\ (c = Returned invalid_message_response
          \/ (body request = BodyJson JNull
              /\ c = Returned
                       (error_response (PStr null_destructuring_message)))
          \/ (exists e, body request = BodyInvalid e /\ c = caught e)))
  \/ (exists userQuery,
        userQuery <> []
        /\ run h (fetch HTML_CONTENT null_destructuring_message request) w
           = pipeline_run h w userQuery).
Proof.
  intros Hm Hp.
  destruct (chat_without_calls HTML_CONTENT null_destructuring_message
                               request Hm Hp)
    as (Hinvalid & Hnull & Hguard).
  destruct (body request) as [v|e] eqn:Hb.
  - destruct v as [|b|n|s|items|members] eqn:Ev;
      try (left; eexists;
           rewrite (Hguard _ eq_refl ltac:(discriminate)
                           ltac:(intros; discriminate));
           split; [reflexivity|now left]).
    + left. eexists. rewrite (Hnull eq_refl).
      split; [reflexivity|]. right. left. split; reflexivity.
    + destruct (get_property (JObj members) (lit "message"))
        as [[|b|n|[|c m]|items|ms]|] eqn:Hmsg;
        try (left; eexists;
             rewrite (Hguard _ eq_refl ltac:(discriminate)
                             ltac:(intros; rewrite Hmsg; discriminate));
             split; [reflexivity|now left]).
      right. exists (c :: m). split; [discriminate|].
      apply (@fetch_accepted HTML_CONTENT null_destructuring_message
                             W h w request (JObj members) (c :: m) Hm Hp Hb);
        [discriminate|exact Hmsg|discriminate].
  - left. exists (caught e). rewrite (Hinvalid e eq_refl), run_read_message.
    split; [reflexivity|]. right. right. now exists e.
Qed.

(** Every request: an answer without a call, or the pipeline. *)
Lemma fetch_cases {W} (h : handlers W) (w : W) (request : Request) :
  (exists c,
      run h (fetch HTML_CONTENT null_destructuring_message request) w
      = {| outcome := c; final := w; trace := [] |}
      /\ (c = Returned options_response
          \/ c = Returned (html_response HTML_CONTENT)
          \/ c = Returned not_found_response
          \/ (method request = lit "POST"
              /\ pathname request = lit "/api/chat"
              /\ (c = Returned invalid_message_response
                  \/ (body request = BodyJson JNull
                      /\ c = Returned
                               (error_response
                                  (PStr null_destructuring_message)))
                  \/ (exists e, body request = BodyInvalid e
                                /\ c = caught e)))))
  \/ (exists userQuery,
        method request = lit "POST"
        /\ pathname request = lit "/api/chat"
        /\ userQuery <> []
        /\ run h (fetch HTML_CONTENT null_destructuring_message request) w
           = pipeline_run h w userQuery).
Proof.
  destruct (jsstring_eqb (method request) (lit "OPTIONS")) eqn:Hopt.
  { left. unfold fetch. rewrite Hopt. eexists. split; [reflexivity|auto]. }
  destruct (jsstring_eqb (pathname request) (lit "/api/chat")
            && jsstring_eqb (method request) (lit "POST")) eqn:Hchat.
  - apply andb_true_iff in Hchat as [Hp Hm].
    apply jsstring_eqb_eq in Hp, Hm.
    destruct (chat_route_cases h w request Hm Hp)
      as [(c & Hc & Hcase)|(userQuery & Hq & Hrun)].
    + left. exists c. split; [exact Hc|]. do 3 right. auto.
    + right. now exists userQuery.
  - left. unfold fetch. rewrite Hopt, Hchat.
    destruct (jsstring_eqb (pathname request) (lit "/")
              || jsstring_eqb (pathname request) (lit "/index.html"));
      eexists; (split; [reflexivity|auto]).
Qed.

Lemma caught_cases (e : js_error) :
  (exists message, e = Thrown message
                   /\ caught e = Returned (error_response message))
  \/ (exists raised, e = Unreadable raised /\ caught e = Raised raised).
Proof.
  destruct e as [message|raised]; [left|right]; eexists; split; reflexivity.
Qed.

Lemma query_failure_unreadable (e raised : js_error) :
  query_failure e = Unreadable raised -> e = Unreadable (Unreadable raised).
Proof.
  destruct e as [message|r]; [discriminate|]. simpl. now intros ->.
Qed.

(** X1. [fetch] returns a response whose status is 200, 400, 404 or 500, or
    it rejects.  It rejects only on [POST /api/chat], and only when the
    message of the value that reached its [catch] block cannot be read: the
    body parser or the synthesis call threw a value such as [null] or
    [undefined], or the query threw a value on which reading the message
    throws such a value in turn. *)
Theorem fetch_responds_or_rejects
        (W : Type) (h : handlers W) (w : W) (request : Request) :
  let result :=
    run h (fetch HTML_CONTENT null_destructuring_message request) w in
  (exists r,
      outcome result = Returned r
      /\ (status r = 200%N \/ status r = 400%N \/ status r = 404%N
          \/ status r = 500%N))
  \/ (exists raised,
        outcome result = Raised raised
        /\ method request = lit "POST"
        /\ pathname request = lit "/api/chat"
        /\ (body request = BodyInvalid (Unreadable raised)
            \/ (exists userQuery,
                  trace result
                  = [ EvAi (synthesis_request userQuery)
                           (AiThrows (Unreadable raised)) ])
            \/ (exists userQuery raw,
                  trace result
                  = [ EvAi (synthesis_request userQuery) (AiReturns raw);
                      EvDb (normalize_sql raw)
                           (DbThrows (Unreadable (Unreadable raised))) ]))).
Proof.
  intros result. unfold result.
  destruct (fetch_cases h w request)
    as [(c & Hrun & Hcase)|(userQuery & Hm & Hp & _ & Hrun)]; rewrite Hrun.
  - destruct Hcase as [->|[->|[->|(Hm & Hp & [->|[[_ ->]|(e & Hb & ->)]])]]];
      try (left; eexists; split; [reflexivity|cbn; auto]).
    destruct (caught_cases e) as [(message & _ & ->)|(raised & -> & ->)].
    + left. eexists; split; [reflexivity|cbn; auto].
    + right. exists raised. auto.
  - unfold pipeline_run.
    destruct (answer_ai h w (synthesis_request userQuery)) as [[raw|e] w1].
    + destruct (answer_db h w1 (normalize_sql raw)) as [[[[|r0 rows]|]|e] w2];
        try (left; eexists; split; [reflexivity|cbn; auto]).
      * destruct (answer_ai h w2 _) as [o3 w3].
        left; eexists; split; [reflexivity|cbn; auto].
      * destruct (caught_cases (query_failure e))
          as [(message & _ & ->)|(raised & He & ->)].
        -- left. eexists; split; [reflexivity|cbn; auto].
        -- right. exists raised. apply query_failure_unreadable in He.
           subst e. do 3 (split; [first [reflexivity|assumption]|]).
           right. right. now exists userQuery, raw.
    + destruct (caught_cases e) as [(message & _ & ->)|(raised & -> & ->)].
      * left. eexists; split; [reflexivity|cbn; auto].
      * right. exists raised.
        do 3 (split; [first [reflexivity|assumption]|]).
        right. left. now exists userQuery.
Qed.

(** X2. A preflight is answered at once, whatever its path and body: status
    200, no body, any origin allowed, the methods [GET, POST, OPTIONS] and
    the header [Content-Type] allowed; no service is called and the world is
    untouched, also when the path is [/api/chat]. *)
Theorem preflight_is_answered_without_calls
        (W : Type) (h : handlers W) (w : W) (request : Request) :
  method request = lit "OPTIONS" ->
  run h (fetch HTML_CONTENT null_destructuring_message request) w
  = {| outcome := Returned options_response; final := w; trace := [] |}
  /\ status options_response = 200%N
  /\ response_body options_response = None
  /\ get_header (lit "Access-Control-Allow-Origin") (headers options_response)
     = Some (lit "*")
  /\ get_header (lit "Access-Control-Allow-Methods") (headers options_response)
     = Some (lit "GET, POST, OPTIONS")
  /\ get_header (lit "Access-Control-Allow-Headers") (headers options_response)
     = Some (lit "Content-Type")
  /\ get_header (lit "Content-Type") (headers options_response) = None.
Proof.
  intros Hm. split; [|repeat split].
  unfold fetch. rewrite Hm. reflexivity.
Qed.

(** X3. The calls of a request come in one fixed order and stop at the first
    failure: none at all; or the synthesis call alone, when it throws; or
    the synthesis call and then one query on the normalized completion, when
    the query throws or gives no rows; or those two and then one
    summarization call over the rows the query gave, which are not empty. *)
Theorem calls_are_sequential
        (W : Type) (h : handlers W) (w : W) (request : Request) :
  let calls :=
    trace (run h (fetch HTML_CONTENT null_destructuring_message request) w) in
  calls = []
  \/ (exists userQuery e,
        calls = [ EvAi (synthesis_request userQuery) (AiThrows e) ])
  \/ (exists userQuery raw o,
        calls = [ EvAi (synthesis_request userQuery) (AiReturns raw);
                  EvDb (normalize_sql raw) o ]
        /\ (o = DbReturns None \/ o = DbReturns (Some [])
            \/ exists e, o = DbThrows e))
  \/ (exists userQuery raw rows o,
        rows <> []
        /\ calls = [ EvAi (synthesis_request userQuery) (AiReturns raw);
                     EvDb (normalize_sql raw) (DbReturns (Some rows));
                     EvAi (summary_request userQuery rows (normalize_sql raw))
                          o ]).
Proof.
  intros calls. unfold calls.
  destruct (fetch_cases h w request)
    as [(c & Hr & _)|(userQuery & _ & _ & _ & Hr)]; rewrite Hr; [now left|].
  right. unfold pipeline_run.
  destruct (answer_ai h w (synthesis_request userQuery)) as [[raw|e] w1];
    [|left; now exists userQuery, e].
  right.
  destruct (answer_db h w1 (normalize_sql raw)) as [[[[|r rows]|]|e] w2].
  - left. exists userQuery, raw, (DbReturns (Some [])). auto.
  - right. destruct (answer_ai h w2 _) as [o3 w3].
    exists userQuery, raw, (r :: rows), o3. split; [discriminate|reflexivity].
  - left. exists userQuery, raw, (DbReturns None). auto.
  - left. exists userQuery, raw, (DbThrows e). eauto.
Qed.



Lemma caught_returned (e : js_error) (r : Response) :
  caught e = Returned r -> exists message, e = Thrown message
                                           /\ r = error_response message.
Proof.
  destruct e as [message|raised]; [|discriminate].
  intros H. inversion H. now exists message.
Qed.

Lemma query_failure_thrown (e : js_error) (message : primitive) :
  query_failure e = Thrown message ->
  (exists m, e = Thrown m
             /\ message = PStr (lit "Database query failed: "
                                ++ primitive_ToString m))
  \/ e = Unreadable (Thrown message).
Proof.
  destruct e as [m|r]; simpl.
  - intros H. inversion H. left. now exists m.
  - intros ->. now right.
Qed.

(** X5. A 500 answer reports what was thrown.  Its body is
    [{ success: false, error }], where [error] is the message of the value
    that reached the [catch] block when that message is truthy, and
    [An error occurred] otherwise.  That value is what the body parser
    threw, or the TypeError of destructuring [null], or what the synthesis
    call threw, or what [executeQuery] throws on a failed query: an [Error]
    whose message is [Database query failed: ] followed by the message of
    what the query threw, or, when that message cannot be read, what
    reading it threw. *)
Theorem server_error_reports_what_was_thrown
        (W : Type) (h : handlers W) (w : W) (request : Request)
        (r : Response) :
  let result :=
    run h (fetch HTML_CONTENT null_destructuring_message request) w in
  outcome result = Returned r ->
  status r = 500%N ->
  exists message,
    (body request = BodyInvalid (Thrown message)
     \/ (body request = BodyJson JNull
         /\ message = PStr null_destructuring_message)
     \/ (exists userQuery,
           trace result
           = [ EvAi (synthesis_request userQuery)
                    (AiThrows (Thrown message)) ])
     \/ (exists userQuery raw e,
           trace result
           = [ EvAi (synthesis_request userQuery) (AiReturns raw);
               EvDb (normalize_sql raw) (DbThrows e) ]
           /\ ((exists m,
                   e = Thrown m
                   /\ message
                      = PStr (lit "Database query failed: "
                              ++ primitive_ToString m))
               \/ e = Unreadable (Thrown message))))
    /\ response_body r
       = Some (JSON_stringify
                 (JObj ((lit "success", JBool false)
                        :: json_member (lit "error")
                             (if ToBoolean message then message
                              else PStr (lit "An error occurred"))))).
Proof.
  intros result Hout Hst. unfold result in *. clear result.
  destruct (fetch_cases h w request)
    as [(c & Hrun & Hcase)|(userQuery & Hm & Hp & _ & Hrun)];
    rewrite Hrun in *; cbn [outcome trace] in *.
  - destruct Hcase as [->|[->|[->|(Hm & Hp & [->|[[Hb ->]|(e & Hb & ->)]])]]];
      try (inversion Hout; subst r; discriminate).
    + inversion Hout; subst r.
      exists (PStr null_destructuring_message). split; [auto|reflexivity].
    + apply caught_returned in Hout as (message & -> & ->).
      exists message. split; [auto|reflexivity].
  - clear Hrun. unfold pipeline_run in *.
    destruct (answer_ai h w (synthesis_request userQuery)) as [[raw|e] w1].
    + destruct (answer_db h w1 (normalize_sql raw)) as [[res|e] w2].
      * destruct res as [[|row rows]|];
          try (inversion Hout; subst r; discriminate).
        destruct (answer_ai h w2 _) as [o3 w3].
        inversion Hout; subst r; discriminate.
      * cbn [outcome trace] in *.
        apply caught_returned in Hout as (message & He & ->).
        exists message. split; [|reflexivity].
        do 3 right. exists userQuery, raw, e.
        split; [reflexivity|]. now apply query_failure_thrown.
    + cbn [outcome trace] in *.
      apply caught_returned in Hout as (message & -> & ->).
      exists message. split; [|reflexivity].
      right. right. left. now exists userQuery.
Qed.

(** X22. The cross-origin header is on the answers of the preflight and of
    the chat route, and on no other: the page and the 404 answer do not
    carry [Access-Control-Allow-Origin]. *)
Theorem cross_origin_header_on_api_only
        (W : Type) (h : handlers W) (w : W) (request : Request)
        (r : Response) :
  outcome (run h (fetch HTML_CONTENT null_destructuring_message request) w)
  = Returned r ->
  get_header (lit "Access-Control-Allow-Origin") (headers r)
  = if jsstring_eqb (method request) (lit "OPTIONS")
       || (jsstring_eqb (pathname request) (lit "/api/chat")
           && jsstring_eqb (method request) (lit "POST"))
    then Some (lit "*") else None.
Proof.
  intros Hr.
  destruct (jsstring_eqb (method request) (lit "OPTIONS")) eqn:Hopt.
  { unfold fetch in Hr. rewrite Hopt in Hr. cbn in Hr.
    inversion Hr. reflexivity. }
  cbn [orb].
  destruct (jsstring_eqb (pathname request) (lit "/api/chat")
            && jsstring_eqb (method request) (lit "POST")) eqn:Hchat.
  - apply andb_true_iff in Hchat as [Hp Hm].
    apply jsstring_eqb_eq in Hp, Hm.
    assert (Henv : json_envelope r).
    { destruct (chat_route_cases h w request Hm Hp)
        as [(c & E & Hcase)|(userQuery & _ & E)]; rewrite E in Hr.
      - cbn [outcome] in Hr.
        destruct Hcase as [->|[[_ ->]|(e & _ & ->)]].
        + inversion Hr. apply invalid_message_response_envelope.
        + inversion Hr. apply error_response_envelope.
        + now apply caught_envelope in Hr.
      - now apply pipeline_run_envelope in Hr. }
    exact (proj1 Henv).
  - unfold fetch in Hr. rewrite Hopt, Hchat in Hr.
    destruct (jsstring_eqb (pathname request) (lit "/")
              || jsstring_eqb (pathname request) (lit "/index.html"));
      cbn in Hr; inversion Hr; reflexivity.
Qed.

End HandlerCoverage.

(* ================================================================== *)
(** ** More on the response composer *)
(* ================================================================== *)

(** X6. [formatResponse] always answers: for every row sequence and every
    outcome of the summarization call it returns a string, never throws, and
    the string is not empty.  When there are rows and the model's text has
    at least ten code units once trimmed, the answer is that trimmed text. *)
Theorem formatResponse_always_answers
        (W : Type) (h : handlers W) (w : W) (userQuery sql : jsstring)
        (results : list row) :
  exists answer,
    outcome (run h (formatResponse userQuery results sql) w) = Returned answer
    /\ answer <> []
    /\ forall text w',
        results <> [] ->
        answer_ai h w (summary_request userQuery results sql)
        = (AiReturns text, w') ->
        (10 <= List.length (trim text))%nat ->
        answer = trim text.
Proof.
  destruct results as [|r rows].
  - exists NO_RESULTS_MESSAGE. split; [reflexivity|].
    split; [discriminate|]. intros text w' H. now elim H.
  - assert (Hne : r :: rows <> []) by discriminate.
    rewrite (formatResponse_run h w userQuery sql Hne).
    destruct (answer_ai h w (summary_request userQuery (r :: rows) sql))
      as [o w1].
    exists (composed_answer userQuery (r :: rows) o).
    split; [reflexivity|]. split.
    + apply nonempty_neq, composed_answer_nonempty.
    + intros text w' _ E Hlen. inversion E; subst. simpl.
      destruct (degenerate_answer (trim text)) eqn:D; [|reflexivity].
      apply degenerate_answer_length in D. lia.
Qed.

(* ================================================================== *)
(** ** More on the normalization of the completion *)
(* ================================================================== *)

Lemma trimStart_fixed (s : jsstring) :
  (forall c r, s = c :: r -> is_white_space c = false) -> trimStart s = s.
Proof.
  destruct s as [|c r]; [reflexivity|]. intros H. simpl.
  now rewrite (H c r eq_refl).
Qed.

Lemma trimEnd_fixed (s : jsstring) :
  (forall c r, s = r ++ [c] -> is_white_space c = false) -> trimEnd s = s.
Proof.
  intros H. unfold trimEnd. rewrite trimStart_fixed.
  - apply rev_involutive.
  - intros c r E. apply (H c (rev r)).
    rewrite <- (rev_involutive s), E. reflexivity.
Qed.

Lemma trim_fixed (s : jsstring) :
  trim s = s <->
  (forall c r, s = c :: r -> is_white_space c = false)
  /\ (forall c r, s = r ++ [c] -> is_white_space c = false).
Proof.
  split.
  - intros E. split; intros c r H; rewrite H in E.
    + now apply trim_no_leading_space in E.
    + now apply trim_no_trailing_space in E.
  - intros [H1 H2]. unfold trim.
    rewrite (trimStart_fixed H1). now apply trimEnd_fixed.
Qed.

Lemma trim_idempotent (s : jsstring) : trim (trim s) = trim s.
Proof.
  apply trim_fixed. split; intros c r E.
  - now apply trim_no_leading_space in E.
  - now apply trim_no_trailing_space in E.
Qed.

Lemma starts_with_app_pattern (p q s : jsstring) :
  starts_with (p ++ q) s = true -> starts_with p s = true.
Proof.
  unfold starts_with. revert s.
  induction p as [|x p IH]; intros s; [reflexivity|].
  destruct s as [|y s]; simpl; [discriminate|].
  destruct (N.eqb x y); [apply IH|discriminate].
Qed.

Lemma includes_app_pattern (s p q : jsstring) :
  includes s (p ++ q) = true -> includes s p = true.
Proof.
  induction s as [|c s IH]; simpl; rewrite !orb_true_iff.
  - intros [H|H]; [left; now apply (starts_with_app_pattern p q)|discriminate].
  - intros [H|H]; [left; now apply (starts_with_app_pattern p q)|right; auto].
Qed.

Lemma match_literal_none (p s : jsstring) :
  starts_with p s = false -> match_literal_opt_newline p s = None.
Proof.
  rewrite match_literal_opt_newline_eq. unfold starts_with.
  now destruct (strip_prefix p s).
Qed.

(** Where the literal does not occur, the replacement changes nothing. *)
Lemma replace_all_absent (c : code_unit) (p s : jsstring) :
  includes s (c :: p) = false ->
  replace_all (match_literal_opt_newline (c :: p)) s = s.
Proof.
  induction s as [|d s IH]; intros H;
    rewrite (replace_all_unfold (match_literal_consuming c p)).
  - now rewrite match_literal_none.
  - cbn [includes] in H. apply orb_false_iff in H as [H1 H2].
    rewrite (match_literal_none _ _ H1). now rewrite IH.
Qed.

(** What [normalize_sql] gives is a clean statement. *)
Lemma normalize_sql_clean (raw : jsstring) :
  clean_statement (normalize_sql raw).
Proof.
  unfold normalize_sql, clean_statement.
  set (stripped :=
         trim (replace_all (match_literal_opt_newline (lit "```"))
                 (replace_all (match_literal_opt_newline (lit "```sql"))
                    (trim raw)))).
  assert (Hfence : includes stripped fence = false).
  { destruct (includes stripped fence) eqn:E; [|reflexivity].
    apply includes_trim in E.
    now rewrite (replace_fence_no_fence _) in E. }
  destruct (endsWith stripped (lit ";")) eqn:Hend; cbn [negb].
  - split; [apply trim_idempotent|now split].
  - split; [|split].
    + apply trim_fixed. split; intros c r E.
      * destruct stripped as [|d t] eqn:Es.
        -- now inversion E.
        -- inversion E; subst d. now apply trim_no_leading_space in Es.
      * apply app_inj_tail in E as [_ <-]. reflexivity.
    + now rewrite includes_fence_semicolon.
    + apply endsWith_semicolon_app.
Qed.

Lemma clean_statement_unchanged (s : jsstring) :
  clean_statement s -> normalize_sql s = s.
Proof.
  intros (Htrim & Hfence & Hend).
  assert (E1 : replace_all (match_literal_opt_newline (lit "```sql")) s = s).
  { apply (@replace_all_absent 96%N (lit "``sql") s).
    match goal with |- ?x = false => destruct x eqn:E end; [|reflexivity].
    apply (includes_app_pattern s fence (lit "sql")) in E. congruence. }
  assert (E2 : replace_all (match_literal_opt_newline (lit "```")) s = s)
    by exact (@replace_all_absent 96%N (lit "``") s Hfence).
  unfold normalize_sql. now rewrite Htrim, E1, E2, Htrim, Hend.
Qed.

(** X7. Normalizing twice is normalizing once. *)
Theorem normalize_sql_idempotent (raw : jsstring) :
  normalize_sql (normalize_sql raw) = normalize_sql raw.
Proof.
  apply clean_statement_unchanged, normalize_sql_clean.
Qed.

(** X8. The completions [generateSQL] hands on verbatim are exactly the
    clean ones: no white space at either end, no code fence, a final
    semicolon. *)
Theorem normalize_sql_fixed_points (s : jsstring) :
  normalize_sql s = s <-> clean_statement s.
Proof.
  split.
  - intros E. rewrite <- E. apply normalize_sql_clean.
  - apply clean_statement_unchanged.
Qed.

Lemma strip_prefix_self (p x : jsstring) : strip_prefix p (p ++ x) = Some x.
Proof.
  induction p as [|c p IH]; simpl; [reflexivity|].
  now rewrite N.eqb_refl.
Qed.

Lemma starts_with_other_head (c d : code_unit) (p s : jsstring) :
  d <> c -> starts_with (c :: p) (d :: s) = false.
Proof.
  intros H. unfold starts_with. simpl.
  destruct (N.eqb_spec c d) as [->|]; [now elim H|reflexivity].
Qed.

(** The scan copies a stretch without the literal's first unit. *)
Lemma replace_all_skip (c : code_unit) (p a b : jsstring) :
  Forall (fun d => d <> c) a ->
  replace_all (match_literal_opt_newline (c :: p)) (a ++ b)
  = a ++ replace_all (match_literal_opt_newline (c :: p)) b.
Proof.
  induction 1 as [|d a Hd Ha IH]; [reflexivity|].
  rewrite (replace_all_unfold (match_literal_consuming c p)).
  cbn [app].
  rewrite (match_literal_none _ _ (@starts_with_other_head c d p (a ++ b) Hd)).
  now rewrite IH.
Qed.

Lemma includes_without_head (c : code_unit) (p s : jsstring) :
  Forall (fun d => d <> c) s -> includes s (c :: p) = false.
Proof.
  induction 1 as [|d s Hd Hs IH]; [reflexivity|].
  cbn [includes]. now rewrite (@starts_with_other_head c d p s Hd), IH.
Qed.

Lemma trimStart_snoc_space (s : jsstring) (c : code_unit) :
  is_white_space c = true ->
  trimStart (s ++ [c]) =
  match trimStart s with [] => [] | t => t ++ [c] end.
Proof.
  intros Hc. induction s as [|d s IH]; simpl; [now rewrite Hc|].
  destruct (is_white_space d); [exact IH|reflexivity].
Qed.

Lemma trim_snoc_space (s : jsstring) (c : code_unit) :
  is_white_space c = true -> trim (s ++ [c]) = trim s.
Proof.
  intros Hc. unfold trim. rewrite (@trimStart_snoc_space s c Hc).
  destruct (trimStart s) as [|d t]; [reflexivity|].
  unfold trimEnd. rewrite rev_app_distr. simpl. now rewrite Hc.
Qed.

Lemma trim_keeps_Forall (P : code_unit -> Prop) (s : jsstring) :
  Forall P s -> Forall P (trim s).
Proof.
  intros H. unfold trim.
  destruct (trimStart_suffix s) as [p Hp].
  destruct (trimEnd_prefix (trimStart s)) as [q Hq].
  rewrite Hp, Hq in H.
  apply Forall_app in H as [_ H]. now apply Forall_app in H as [H _].
Qed.

(** X9. A completion wrapped in a [sql] code fence, as a chat model returns
    it, is normalized to what its body alone is normalized to, whenever the
    body holds no backtick. *)
Theorem fenced_completion_is_unwrapped (body : jsstring) :
  Forall (fun c => c <> backtick) body ->
  normalize_sql (fenced body) = normalize_sql body.
Proof.
  intros Hbody.
  assert (Htrim : trim (fenced body) = fenced body).
  { apply trim_fixed. split; intros c r E.
    - inversion E. reflexivity.
    - unfold fenced in E.
      change (lit "```") with (lit "``" ++ [96%N]) in E.
      rewrite !app_assoc in E. apply app_inj_tail in E as [_ <-].
      reflexivity. }
  assert (E1 : replace_all (match_literal_opt_newline (lit "```sql"))
                 (fenced body)
               = body ++ newline ++ lit "```").
  { rewrite (replace_all_unfold (@match_literal_consuming 96%N (lit "``sql"))).
    change (match_literal_opt_newline (96%N :: lit "``sql"))
      with (match_literal_opt_newline (lit "```sql")).
    rewrite match_literal_opt_newline_eq. unfold fenced.
    rewrite strip_prefix_self. cbn [app newline]. rewrite N.eqb_refl.
    rewrite (@replace_all_skip 96%N (lit "``sql") body _ Hbody).
    reflexivity. }
  assert (E2 : replace_all (match_literal_opt_newline (lit "```"))
                 (body ++ newline ++ lit "```")
               = body ++ newline).
  { rewrite (@replace_all_skip 96%N (lit "``") body _ Hbody). reflexivity. }
  assert (Hclean : Forall (fun c => c <> backtick) (trim body))
    by now apply trim_keeps_Forall.
  assert (E3 : replace_all (match_literal_opt_newline (lit "```sql"))
                 (trim body) = trim body).
  { apply (@replace_all_absent 96%N (lit "``sql")).
    now apply includes_without_head. }
  assert (E4 : replace_all (match_literal_opt_newline (lit "```"))
                 (trim body) = trim body).
  { apply (@replace_all_absent 96%N (lit "``")).
    now apply includes_without_head. }
  unfold normalize_sql.
  rewrite Htrim, E1, E2, E3, E4, trim_idempotent.
  rewrite <- (@trim_snoc_space body 10%N eq_refl). reflexivity.
Qed.

(* ================================================================== *)
(** ** More on the fallback formatter *)
(* ================================================================== *)

Lemma lookup_restrict_columns (ks : list jsstring) (r : row) (key : jsstring) :
  In key ks -> lookup (restrict_columns ks r) key = lookup r key.
Proof.
  intros Hin. induction r as [|[k v] r IH]; [reflexivity|].
  simpl. destruct (existsb (jsstring_eqb k) ks) eqn:E; simpl.
  - now rewrite IH.
  - rewrite IH. destruct (jsstring_eqb k key) eqn:K; [|reflexivity].
    apply jsstring_eqb_eq in K. subst k.
    assert (existsb (jsstring_eqb key) ks = true); [|congruence].
    apply existsb_exists. exists key. split; [exact Hin|].
    apply jsstring_eqb_refl.
Qed.

(** X10. The table is made of the first row's columns only: what the later
    rows hold under other names is never rendered. *)
Theorem formatTable_reads_first_row_columns (first : row) (rest : list row) :
  formatTable (first :: rest)
  = formatTable (first :: map (restrict_columns (keys first)) rest).
Proof.
  unfold formatTable. cbn [map]. rewrite map_map. do 4 f_equal.
  apply map_ext. intros r. f_equal.
  apply map_ext_in. intros key Hin. unfold row_get.
  now rewrite lookup_restrict_columns.
Qed.

(** X23. A column of the first row that a later row does not have is read
    through the row's prototype: its cell is [undefined], unless the column
    bears the name of a member of [Object.prototype], and then the cell is
    the text of that member, as for [toString] the source text of the native
    function. *)
Theorem missing_column_cell (first r : row) (rest : list row)
        (i j : nat) (key : jsstring) :
  nth_error (first :: rest) i = Some r ->
  nth_error (keys first) j = Some key ->
  lookup r key = None ->
  exists lines cells,
    formatTable (first :: rest)
    = join newline
        (join (lit " | ") (keys first)
         :: join (lit " | ") (map (fun _ => lit "---") (keys first))
         :: lines)
    /\ nth_error lines i = Some (join (lit " | ") cells)
    /\ nth_error cells j
       = Some (if existsb (jsstring_eqb key) Object_prototype_names
               then builtin_text key
               else lit "undefined")
    /\ builtin_text (lit "toString")
       = lit "function toString() { [native code] }".
Proof.
  intros Hi Hj Hkey.
  set (cell_of := fun (r : row) (key : jsstring) =>
                    table_cell (row_get r key)).
  set (line_of := fun r : row =>
                    join (lit " | ") (map (cell_of r) (keys first))).
  exists (map line_of (first :: rest)), (map (cell_of r) (keys first)).
  split; [reflexivity|].
  split; [exact (map_nth_error line_of i (first :: rest) Hi)|].
  split; [|reflexivity].
  rewrite (map_nth_error (cell_of r) j (keys first) Hj).
  unfold cell_of, row_get. rewrite Hkey.
  now destruct (existsb (jsstring_eqb key) Object_prototype_names).
Qed.

Lemma lookup_Permutation (r r' : row) (key : jsstring) :
  Permutation r r' -> NoDup (keys r) -> lookup r key = lookup r' key.
Proof.
  induction 1 as [|[k v] l l' Hp IH|[k1 v1] [k2 v2] l|l l' l'' H1 IH1 H2 IH2];
    intros Hnd.
  - reflexivity.
  - simpl in *. inversion Hnd; subst. now rewrite IH.
  - simpl in *. inversion Hnd as [|? ? Hnotin _]; subst.
    destruct (jsstring_eqb k1 key) eqn:E1, (jsstring_eqb k2 key) eqn:E2;
      try reflexivity.
    apply jsstring_eqb_eq in E1, E2. subst. elim Hnotin. now left.
  - rewrite IH1 by assumption. apply IH2.
    apply (Permutation_NoDup (l := keys l)); [|assumption].
    unfold keys. now apply Permutation_map.
Qed.

Lemma summary_parts_Permutation (r r' : row) :
  Permutation r r' -> NoDup (keys r) -> summary_parts r = summary_parts r'.
Proof.
  intros Hp Hnd. unfold summary_parts.
  now rewrite !(lookup_Permutation _ Hp Hnd).
Qed.

(** X11. The one-row summary does not depend on the order of the columns
    when it has at least one part: for a row of two or more distinct columns
    for which [parts] is not empty (both names are truthy, or [ERA], [SO] or
    [W] is present, or [yearID] is truthy), any reordering of the columns
    gives the same answer.  Without a part the answer is
    [JSON.stringify(row)], which follows the order of the columns. *)
Theorem one_row_summary_ignores_column_order
        (r r' : row) (userQuery : jsstring) :
  Permutation r r' ->
  NoDup (keys r) ->
  (2 <= List.length r)%nat ->
  summary_parts r <> [] ->
  formatSimple [r] userQuery = formatSimple [r'] userQuery.
Proof.
  intros Hp Hnd Hlen Hparts.
  pose proof (Permutation_length Hp) as Hl.
  pose proof (summary_parts_Permutation Hp Hnd) as Hs.
  unfold formatSimple, keys.
  destruct r as [|a [|b r]]; simpl in Hlen; try lia.
  destruct r' as [|a' [|b' r']]; simpl in Hl; try lia.
  change (map fst (a :: b :: r)) with (fst a :: fst b :: map fst r).
  change (map fst (a' :: b' :: r')) with (fst a' :: fst b' :: map fst r').
  cbv iota. rewrite Hs.
  destruct (summary_parts (a' :: b' :: r')); [|reflexivity].
  now elim Hparts.
Qed.

Lemma includes_self_prefix (p x : jsstring) : includes (p ++ x) p = true.
Proof.
  assert (H : starts_with p (p ++ x) = true)
    by (unfold starts_with; now rewrite strip_prefix_self).
  destruct (p ++ x); simpl; now rewrite H.
Qed.

Lemma includes_refl (p : jsstring) : includes p p = true.
Proof.
  pose proof (includes_self_prefix p []) as H. now rewrite app_nil_r in H.
Qed.

Lemma includes_join_member (sep x p : jsstring) (parts : list jsstring) :
  In x parts -> includes x p = true -> includes (join sep parts) p = true.
Proof.
  intros Hin Hx. induction parts as [|a rest IH]; [contradiction|].
  destruct rest as [|b rest].
  - destruct Hin as [->|[]]. exact Hx.
  - cbn [join]. destruct Hin as [->|Hin].
    + now apply includes_prefix.
    + apply includes_suffix, includes_suffix. now apply IH.
Qed.

Lemma one_row_summary_includes (r : row) (userQuery part p : jsstring) :
  (2 <= List.length r)%nat ->
  In part (summary_parts r) ->
  includes part p = true ->
  includes (formatSimple [r] userQuery) p = true.
Proof.
  intros Hlen Hin Hp. unfold formatSimple, keys.
  destruct r as [|a [|b r]]; simpl in Hlen; try lia.
  change (map fst (a :: b :: r)) with (fst a :: fst b :: map fst r).
  cbv iota.
  destruct (summary_parts (a :: b :: r)) as [|q qs] eqn:E; [contradiction|].
  now apply (includes_join_member (lit " ") part).
Qed.

(** X12. The one-row summary tests the statistics columns for presence, not
    for a value: in a row of two or more columns, an [ERA] that is null is
    printed as [ERA: NaN], and an [SO] or a [W] that is null as [null SO] or
    [null W]. *)
Theorem null_statistics_are_printed (r : row) (userQuery : jsstring) :
  (2 <= List.length r)%nat ->
  (lookup r (lit "ERA") = Some VNull ->
   includes (formatSimple [r] userQuery) (lit "ERA: NaN") = true)
  /\ (lookup r (lit "SO") = Some VNull ->
      includes (formatSimple [r] userQuery) (lit "null SO") = true)
  /\ (lookup r (lit "W") = Some VNull ->
      includes (formatSimple [r] userQuery) (lit "null W") = true).
Proof.
  intros Hlen. split; [|split]; intros H.
  - apply (@one_row_summary_includes r userQuery (lit "ERA: NaN"));
      [assumption| |apply includes_refl].
    unfold summary_parts. rewrite H.
    apply in_or_app. right. apply in_or_app. left. now left.
  - apply (@one_row_summary_includes r userQuery (lit "null SO"));
      [assumption| |apply includes_refl].
    unfold summary_parts. rewrite H.
    do 2 (apply in_or_app; right). apply in_or_app. left. now left.
  - apply (@one_row_summary_includes r userQuery (lit "null W"));
      [assumption| |apply includes_refl].
    unfold summary_parts. rewrite H.
    do 3 (apply in_or_app; right). apply in_or_app. left. now left.
Qed.

(* ================================================================== *)
(** ** The seeding script: quoting and rendering of values *)
(* ================================================================== *)

Lemma read_quoted_escape (v rest : jsstring) :
  (forall r, rest <> 39%N :: r) ->
  read_quoted (escape_quotes v ++ lit "'" ++ rest) = Some (v, rest).
Proof.
  intros Hrest. induction v as [|c v IH].
  - simpl. destruct rest as [|d r]; [reflexivity|].
    destruct (N.eqb_spec d 39) as [->|]; [now elim (Hrest r)|reflexivity].
  - cbn [escape_quotes flat_map].
    fold (escape_quotes v).
    destruct (N.eqb_spec c 39) as [->|Hc].
    + cbn [app read_quoted]. rewrite N.eqb_refl.
      cbn [app] in IH. now rewrite IH.
    + cbn [app read_quoted].
      destruct (N.eqb_spec c 39) as [|_]; [contradiction|].
      cbn [app] in IH. now rewrite IH.
Qed.

(** X13. A quoted value reads back: read as a SQL string literal, the text
    the script writes for [value] gives [value] again and ends where the
    script ended it, whatever quotes [value] holds. *)
Theorem sql_string_literal_reads_back (value rest : jsstring) :
  (forall r, rest <> 39%N :: r) ->
  read_sql_string (sql_string_literal value ++ rest) = Some (value, rest).
Proof.
  intros Hrest. unfold sql_string_literal, read_sql_string.
  rewrite <- !app_assoc. cbn [lit app map list_ascii_of_string].
  change (N_of_ascii "'") with 39%N. cbv iota.
  now apply read_quoted_escape.
Qed.


Lemma digit_is_numeric (c : code_unit) :
  is_digit c = true -> numeric_literal_unit c = true.
Proof.
  intros H. unfold numeric_literal_unit. rewrite H.
  now rewrite orb_true_r.
Qed.

Lemma white_space_is_numeric (c : code_unit) :
  is_white_space c = true -> numeric_literal_unit c = true.
Proof.
  intros H. unfold numeric_literal_unit. now rewrite H.
Qed.

Lemma span_digits_spec (s ds rest : jsstring) :
  span_digits s = (ds, rest) ->
  s = ds ++ rest /\ Forall (fun c => is_digit c = true) ds.
Proof.
  revert ds rest. induction s as [|c s IH]; intros ds rest H; simpl in H.
  - inversion H. auto.
  - destruct (is_digit c) eqn:D.
    + destruct (span_digits s) as [ds' rest'].
      inversion H; subst. destruct (IH ds' rest eq_refl) as [-> F].
      split; [reflexivity|now constructor].
    + inversion H. auto.
Qed.

Lemma digits_are_numeric (ds : jsstring) :
  Forall (fun c => is_digit c = true) ds -> Forall (fun c => numeric_literal_unit c = true) ds.
Proof.
  intros H. eapply Forall_impl; [|exact H]. apply digit_is_numeric.
Qed.

Lemma scan_sign_spec (s r : jsstring) (neg : bool) :
  scan_sign s = (neg, r) ->
  exists sign, s = sign ++ r /\ Forall (fun c => numeric_literal_unit c = true) sign.
Proof.
  destruct s as [|c s]; simpl.
  - intros H. inversion H. now exists [].
  - destruct (N.eqb_spec c 43) as [->|];
      [intros H; inversion H; exists [43%N]; split;
       [reflexivity|now repeat constructor]|].
    destruct (N.eqb_spec c 45) as [->|];
      [intros H; inversion H; exists [45%N]; split;
       [reflexivity|now repeat constructor]|].
    intros H. inversion H. now exists [].
Qed.

Lemma scan_exponent_spec (s rest : jsstring) (ex : Z) :
  scan_exponent s = (ex, rest) ->
  exists consumed, s = consumed ++ rest /\ Forall (fun c => numeric_literal_unit c = true) consumed.
Proof.
  destruct s as [|c s]; simpl.
  - intros H. inversion H. now exists [].
  - destruct ((c =? 101) || (c =? 69))%N eqn:E;
      [|intros H; inversion H; now exists []].
    destruct (scan_sign s) as [neg s''] eqn:Es.
    destruct (span_digits s'') as [ds r] eqn:Ed.
    destruct ds as [|d ds]; [intros H; inversion H; now exists []|].
    intros H. inversion H; subst.
    destruct (scan_sign_spec _ Es) as (sign & -> & Hs).
    destruct (span_digits_spec _ Ed) as (-> & Hd).
    exists (c :: sign ++ d :: ds). split.
    + simpl. now rewrite <- app_assoc.
    + constructor.
      * apply orb_true_iff in E as [E|E]; apply N.eqb_eq in E; now subst.
      * apply Forall_app. split; [exact Hs|now apply digits_are_numeric].
Qed.

Lemma scan_fraction_spec (s fp rest : jsstring) :
  scan_fraction s = (fp, rest) ->
  exists consumed, s = consumed ++ rest /\ Forall (fun c => numeric_literal_unit c = true) consumed.
Proof.
  destruct s as [|c s]; simpl.
  - intros H. inversion H. now exists [].
  - destruct (N.eqb_spec c 46) as [->|]; [|intros H; inversion H; now exists []].
    intros H. destruct (span_digits_spec _ H) as (-> & Hd).
    exists (46%N :: fp). split; [reflexivity|].
    constructor; [reflexivity|now apply digits_are_numeric].
Qed.

Lemma isFinite_round_double_only (x : number) :
  isFinite x = true -> x <> NaN /\ forall neg, x <> Infinity neg.
Proof.
  destruct x; simpl; intros H; try discriminate.
  split; [discriminate|intros n; discriminate].
Qed.

Lemma decimal_literal_units (neg : bool) (s : jsstring) :
  isFinite (decimal_literal neg s) = true -> Forall (fun c => numeric_literal_unit c = true) s.
Proof.
  unfold decimal_literal.
  destruct (jsstring_eqb s (lit "Infinity")); [discriminate|].
  destruct (span_digits s) as [ip r1] eqn:E1.
  destruct (scan_fraction r1) as [fp r2] eqn:E2.
  destruct (span_digits_spec _ E1) as (-> & Hip).
  destruct (scan_fraction_spec _ E2) as (frac & -> & Hfrac).
  assert (Hexp : isFinite
                   (let '(ex, r3) := scan_exponent r2 in
                    match r3 with
                    | [] =>
                        round_double neg
                          (inject_Z (Z.of_N (N_of_digits (ip ++ fp)))
                           * pow10 (ex - Z.of_nat (List.length fp)))
                    | _ :: _ => NaN
                    end) = true -> Forall (fun c => numeric_literal_unit c = true) (ip ++ frac ++ r2)).
  { destruct (scan_exponent r2) as [ex r3] eqn:E3.
    destruct (scan_exponent_spec _ E3) as (expo & -> & Hexpo).
    destruct r3 as [|c r3]; [|discriminate]. intros _.
    rewrite app_nil_r. apply Forall_app. split.
    - now apply digits_are_numeric.
    - now apply Forall_app. }
  destruct ip as [|i ip]; [destruct fp as [|f fp]|]; try exact Hexp.
  discriminate.
Qed.

Lemma digit_value_numeric (c : code_unit) (d : N) :
  digit_value c = Some d -> numeric_literal_unit c = true.
Proof.
  unfold digit_value, numeric_literal_unit.
  destruct ((48 <=? c) && (c <=? 57))%N eqn:D.
  - intros _. unfold is_digit. rewrite D. now rewrite orb_true_r.
  - destruct ((97 <=? c) && (c <=? 102))%N eqn:L; [intros _|].
    + now rewrite !orb_true_r.
    + destruct ((65 <=? c) && (c <=? 70))%N eqn:U; [intros _|discriminate].
      now rewrite !orb_true_r.
Qed.

Lemma radix_digits_units (radix : N) (s : jsstring) (acc n : N) :
  radix_digits radix s acc = Some n -> Forall (fun c => numeric_literal_unit c = true) s.
Proof.
  revert acc. induction s as [|c s IH]; intros acc H; [constructor|].
  simpl in H. destruct (digit_value c) as [d|] eqn:D; [|discriminate].
  destruct (d <? radix)%N; [|discriminate].
  constructor; [now apply (digit_value_numeric c D)|now apply (IH _ H)].
Qed.

Lemma nondecimal_literal_units (t : jsstring) (n : N) :
  nondecimal_literal t = Some n -> Forall (fun c => numeric_literal_unit c = true) t.
Proof.
  destruct t as [|z [|x [|d ds]]]; try discriminate. unfold nondecimal_literal.
  destruct (N.eqb_spec z 48) as [->|]; [|discriminate]. cbn [negb].
  assert (Hx : forall a b : N, ((x =? a) || (x =? b))%N = true ->
                               x = a \/ x = b).
  { intros a b H. apply orb_true_iff in H as [H|H]; apply N.eqb_eq in H; auto. }
  destruct ((x =? 120) || (x =? 88))%N eqn:E16;
    [destruct (Hx _ _ E16) as [-> | ->]; intros H;
     apply radix_digits_units in H;
     (constructor; [reflexivity|constructor; [reflexivity|exact H]])|].
  destruct ((x =? 111) || (x =? 79))%N eqn:E8;
    [destruct (Hx _ _ E8) as [-> | ->]; intros H;
     apply radix_digits_units in H;
     (constructor; [reflexivity|constructor; [reflexivity|exact H]])|].
  destruct ((x =? 98) || (x =? 66))%N eqn:E2; [|discriminate].
  destruct (Hx _ _ E2) as [-> | ->]; intros H;
    apply radix_digits_units in H;
     (constructor; [reflexivity|constructor; [reflexivity|exact H]]).
Qed.

Lemma trimStart_suffix_spaces (s : jsstring) :
  exists p, s = p ++ trimStart s /\ Forall (fun c => is_white_space c = true) p.
Proof.
  induction s as [|c s (p & IH & Hp)]; [now exists []|].
  simpl. destruct (is_white_space c) eqn:E.
  - exists (c :: p). simpl. split; [now f_equal|now constructor].
  - now exists [].
Qed.

Lemma trim_frame_spaces (s : jsstring) :
  exists p q,
    s = p ++ trim s ++ q
    /\ Forall (fun c => is_white_space c = true) p
    /\ Forall (fun c => is_white_space c = true) q.
Proof.
  destruct (trimStart_suffix_spaces s) as (p & Hp & Fp).
  destruct (trimStart_suffix_spaces (rev (trimStart s))) as (q & Hq & Fq).
  exists p, (rev q). split; [|split; [exact Fp|]].
  - rewrite Hp at 1. f_equal. unfold trim, trimEnd.
    rewrite <- rev_app_distr, <- Hq. now rewrite rev_involutive.
  - now apply Forall_rev.
Qed.

(** A string [Number] reads as a finite number is made of the units of a
    numeric literal. *)
Lemma finite_number_units (s : jsstring) :
  isFinite (StringToNumber s) = true -> Forall (fun c => numeric_literal_unit c = true) s.
Proof.
  intros H. destruct (trim_frame_spaces s) as (p & q & Hs & Fp & Fq).
  assert (Ht : Forall (fun c => numeric_literal_unit c = true) (trim s)).
  { unfold StringToNumber in H.
    destruct (trim s) as [|c t] eqn:Et; [constructor|].
    destruct (nondecimal_literal (c :: t)) as [n|] eqn:En.
    - now apply (nondecimal_literal_units _ En).
    - destruct (scan_sign (c :: t)) as [neg r] eqn:Es.
      destruct (scan_sign_spec _ Es) as (sign & -> & Hsign).
      apply Forall_app. split; [exact Hsign|].
      now apply (decimal_literal_units neg). }
  rewrite Hs. apply Forall_app. split.
  - eapply Forall_impl; [|exact Fp]. apply white_space_is_numeric.
  - apply Forall_app. split; [exact Ht|].
    eapply Forall_impl; [|exact Fq]. apply white_space_is_numeric.
Qed.

(** X14. What the script writes for a field is one of three things: [NULL]
    for the empty field; the field itself, unquoted, and then the field is
    made of the code units of a numeric literal only, so it holds no quote;
    or the quoted literal of the field. *)
Theorem rendered_value_forms (value : jsstring) :
  (value = [] /\ render_value (Own value) = Some (lit "NULL"))
  \/ (value <> []
      /\ render_value (Own value) = Some value
      /\ Forall (fun c => numeric_literal_unit c = true) value
      /\ ~ In 39%N value)
  \/ (value <> []
      /\ render_value (Own value) = Some (sql_string_literal value)).
Proof.
  destruct value as [|c v]; [now left|]. right.
  unfold render_value.
  destruct (negb (isNaN (parseFloat (c :: v)))
            && isFinite (StringToNumber (c :: v))) eqn:E.
  - left. apply andb_true_iff in E as [_ E].
    pose proof (finite_number_units _ E) as F.
    repeat split; try discriminate; [exact F|].
    intros Hin. rewrite Forall_forall in F. now apply F in Hin.
  - right. split; [discriminate|reflexivity].
Qed.

(** X15. [NULL] is written for a column the row does not have and for an
    empty field, and for nothing else: a field that reads [NULL] is
    quoted. *)
Theorem null_only_for_missing_or_empty (p : property) :
  render_value p = Some (lit "NULL") <-> p = Missing \/ p = Own [].
Proof.
  split; [|intros [-> | ->]; reflexivity].
  destruct p as [[|c v]| |]; auto; [|discriminate].
  unfold render_value.
  destruct (negb (isNaN (parseFloat (c :: v)))
            && isFinite (StringToNumber (c :: v))) eqn:E.
  - intros H. inversion H as [Hv]. rewrite Hv in E. discriminate.
  - intros H. discriminate.
Qed.

(* ================================================================== *)
(** ** The seeding script: rows of a file *)
(* ================================================================== *)

Lemma own_property_set_same (r : CSVRow) (k v : jsstring) :
  own_property (set_own_property r k v) k = Some v.
Proof.
  induction r as [|[k' v'] r IH]; simpl.
  - now rewrite jsstring_eqb_refl.
  - destruct (jsstring_eqb k' k) eqn:E; simpl; rewrite E; auto.
Qed.

Lemma own_property_set_other (r : CSVRow) (k v k' : jsstring) :
  k' <> k ->
  own_property (set_own_property r k v) k' = own_property r k'.
Proof.
  intros Hn. induction r as [|[k0 v0] r IH]; simpl.
  - rewrite jsstring_eqb_neq; auto.
  - destruct (jsstring_eqb k0 k) eqn:E; simpl.
    + apply jsstring_eqb_eq in E. subst k0.
      rewrite jsstring_eqb_neq; auto.
    + destruct (jsstring_eqb k0 k'); auto.
Qed.

Lemma assign_keys (r : CSVRow) (a x key : jsstring) :
  (exists v, own_property (assign r a x) key = Some v)
  <-> (a = key /\ key <> lit "__proto__")
      \/ (exists v, own_property r key = Some v).
Proof.
  unfold assign. destruct (jsstring_eqb a (lit "__proto__")) eqn:E.
  - apply jsstring_eqb_eq in E. split; [auto|].
    intros [[H1 H2]|H]; [congruence|exact H].
  - assert (Ha : a <> lit "__proto__").
    { intros H. apply jsstring_eqb_eq in H. congruence. }
    destruct (jsstring_eqb a key) eqn:K.
    + apply jsstring_eqb_eq in K. subst key.
      rewrite own_property_set_same. split; [auto|eauto].
    + assert (Hk : key <> a).
      { intros H. symmetry in H. apply jsstring_eqb_eq in H. congruence. }
      rewrite (@own_property_set_other r a x key Hk). split; [auto|].
      intros [[H1 H2]|H]; [congruence|exact H].
Qed.

Lemma fill_row_absent (hs : list jsstring) (i : nat) (values : list jsstring)
      (r : CSVRow) (key : jsstring) :
  ~ In key hs ->
  own_property (fill_row hs i values r) key = own_property r key.
Proof.
  revert i r. induction hs as [|a hs IH]; intros i r Hn; [reflexivity|].
  simpl. rewrite IH by (intros H; apply Hn; now right).
  unfold assign. destruct (jsstring_eqb a (lit "__proto__")); [reflexivity|].
  apply own_property_set_other. intros H. apply Hn. now left.
Qed.

Lemma fill_row_own (pre post : list jsstring) (h : jsstring) (i : nat)
      (values : list jsstring) (r : CSVRow) :
  ~ In h post -> h <> lit "__proto__" ->
  own_property (fill_row (pre ++ h :: post) i values r) h
  = Some (field values (i + List.length pre)).
Proof.
  intros Hpost Hproto. revert i r.
  induction pre as [|a pre IH]; intros i r; simpl.
  - rewrite (@fill_row_absent post (S i) values _ h Hpost).
    unfold assign. rewrite (jsstring_eqb_neq Hproto).
    rewrite own_property_set_same. now rewrite Nat.add_0_r.
  - rewrite IH. do 2 f_equal. lia.
Qed.

Lemma fill_row_keys (hs : list jsstring) (i : nat) (values : list jsstring)
      (r : CSVRow) (key : jsstring) :
  (exists v, own_property (fill_row hs i values r) key = Some v)
  <-> (In key hs /\ key <> lit "__proto__")
      \/ (exists v, own_property r key = Some v).
Proof.
  revert i r. induction hs as [|a hs IH]; intros i r; simpl.
  - split; [auto|]. intros [[[] _]|H]; exact H.
  - rewrite IH, assign_keys. tauto.
Qed.

(** The header line of a file and its data lines, as [parseCSV] cuts
    them. *)
Lemma parse_lines_rows (content : jsstring) :
  parse_lines content
  = map (fun line =>
           fill_row (map trim (split_on 44%N
                                 (hd [] (split_on 10%N (trim content)))))
                    0 (map trim (split_on 44%N line)) [])
        (tl (split_on 10%N (trim content))).
Proof. reflexivity. Qed.

(** X16. The field of a data line under a header: when the header is not
    [__proto__] and is not repeated further right, the row of the [i]-th data
    line holds under it the trimmed field at the header's position, or the
    empty string when the line is too short. *)
Theorem parsed_field_lookup (content : jsstring) (pre post : list jsstring)
        (h line : jsstring) (i : nat) :
  header_names content = pre ++ h :: post ->
  ~ In h post ->
  h <> lit "__proto__" ->
  nth_error (data_lines content) i = Some line ->
  option_map (fun row => get row h) (nth_error (parse_lines content) i)
  = Some (Own (field (map trim (split_on 44%N line)) (List.length pre))).
Proof.
  intros Hh Hpost Hproto Hline.
  rewrite parse_lines_rows, nth_error_map.
  fold (data_lines content) (header_names content).
  rewrite Hline, Hh. cbn [option_map]. unfold get.
  now rewrite (@fill_row_own pre post h 0%nat _ [] Hpost Hproto).
Qed.

(** X17. The own properties of a parsed row are the names of the header
    line, [__proto__] left out, whatever the data line holds. *)
Theorem parsed_rows_have_the_header_columns (content : jsstring)
        (row : CSVRow) (key : jsstring) :
  In row (parse_lines content) ->
  ((exists v, own_property row key = Some v)
   <-> In key (header_names content) /\ key <> lit "__proto__").
Proof.
  rewrite parse_lines_rows. intros Hrow.
  apply in_map_iff in Hrow as (line & <- & _).
  rewrite fill_row_keys. fold (header_names content). split; [|auto].
  intros [H|[v H]]; [exact H|discriminate].
Qed.

Lemma all_some_none {A} (l : list (option A)) :
  all_some l = None <-> In None l.
Proof.
  induction l as [|[a|] l IH]; simpl.
  - split; [discriminate|intros []].
  - destruct (all_some l).
    + split; [discriminate|]. intros [H|H]; [discriminate|].
      now apply IH in H.
    + split; [intros _; right; now apply IH|reflexivity].
  - split; auto.
Qed.

Lemma all_some_map {A} (l : list (option A)) (r : list A) :
  all_some l = Some r <-> l = map Some r.
Proof.
  revert r. induction l as [|[a|] l IH]; intros r; simpl.
  - split; [intros H; now inversion H|].
    destruct r; [reflexivity|discriminate].
  - destruct (all_some l) as [r'|] eqn:E.
    + split.
      * intros H. inversion H. simpl. f_equal. now apply IH.
      * destruct r as [|b r]; [discriminate|]. simpl. intros H.
        inversion H; subst. f_equal. f_equal.
        assert (Hr : Some r' = Some r) by now apply IH.
        now inversion Hr.
    + split; [discriminate|].
      destruct r as [|b r]; [discriminate|]. simpl. intros H.
      inversion H; subst.
      assert (Hr : None = Some r) by now apply IH.
      discriminate.
  - split; [discriminate|]. destruct r; discriminate.
Qed.

Lemma row_values_none (r : CSVRow) (columns : list jsstring) :
  all_some (map (fun col => render_value (get r col)) columns) = None
  <-> exists col, In col columns /\ get r col = Inherited.
Proof.
  rewrite all_some_none, in_map_iff. split.
  - intros (col & H & Hin). exists col. split; [exact Hin|].
    destruct (get r col) as [[|c v]| |]; try discriminate; [|reflexivity].
    unfold render_value in H.
    destruct (negb (isNaN (parseFloat (c :: v)))
              && isFinite (StringToNumber (c :: v))); discriminate.
  - intros (col & Hin & H). exists col. now rewrite H.
Qed.


Lemma generateInserts_length (tableName : jsstring) (rows : list CSVRow)
      (columns : list jsstring) (statements : list jsstring) :
  generateInserts tableName rows columns = Some statements ->
  List.length statements = List.length rows.
Proof.
  unfold generateInserts. intros H. apply all_some_map in H.
  apply (f_equal (@List.length _)) in H. now rewrite !length_map in H.
Qed.

Lemma generateInserts_some (tableName : jsstring) (rows : list CSVRow)
      (columns : list jsstring) :
  (forall r col, In r rows -> In col columns -> get r col <> Inherited) ->
  exists statements,
    generateInserts tableName rows columns = Some statements.
Proof.
  intros Hget.
  destruct (generateInserts tableName rows columns) as [s|] eqn:E;
    [now exists s|].
  unfold generateInserts in E. apply all_some_none in E.
  apply in_map_iff in E as (r & E & Hr).
  destruct (all_some (map (fun col => render_value (get r col)) columns))
    eqn:Ev; [discriminate|].
  apply row_values_none in Ev as (col & Hcol & Hi).
  now destruct (Hget r col Hr Hcol).
Qed.

Lemma get_not_inherited (r : CSVRow) (col : jsstring) :
  existsb (jsstring_eqb col) Object_prototype_names = false ->
  get r col <> Inherited.
Proof.
  intros H. unfold get. destruct (own_property r col); [discriminate|].
  rewrite H. discriminate.
Qed.

(** X19. Rows read from a file can be written for every list of columns
    each of which is a header of the file other than [__proto__], or is not
    a name of [Object.prototype]: [generateInserts] does not throw, and
    gives as many statements as the file has data lines. *)
Theorem generateInserts_accepts_parsed_rows (tableName content : jsstring)
        (columns : list jsstring) :
  Forall (fun col =>
            (In col (header_names content) /\ col <> lit "__proto__")
            \/ existsb (jsstring_eqb col) Object_prototype_names = false)
         columns ->
  exists statements,
    generateInserts tableName (parse_lines content) columns = Some statements
    /\ List.length statements = List.length (data_lines content).
Proof.
  intros Hcols.
  destruct (@generateInserts_some tableName (parse_lines content) columns)
    as [statements Hs].
  - intros r col Hr Hcol. rewrite Forall_forall in Hcols.
    destruct (Hcols col Hcol) as [Hh|Hn]; [|now apply get_not_inherited].
    rewrite parse_lines_rows in Hr.
    apply in_map_iff in Hr as (line & <- & _).
    assert (Hv : exists v,
               own_property
                 (fill_row (header_names content) 0
                           (map trim (split_on 44%N line)) []) col
               = Some v)
      by (apply fill_row_keys; now left).
    destruct Hv as [v Hv]. unfold get.
    fold (header_names content). rewrite Hv. discriminate.
  - exists statements. split; [exact Hs|].
    rewrite (@generateInserts_length _ _ _ _ Hs), parse_lines_rows.
    now rewrite length_map.
Qed.

Lemma split_on_no_separator (sep : code_unit) (s : jsstring) :
  Forall (Forall (fun c => c <> sep)) (split_on sep s).
Proof.
  induction s as [|c s IH]; simpl; [repeat constructor|].
  destruct (N.eqb_spec c sep) as [->|Hc]; [now constructor|].
  destruct (split_on sep s) as [|first rest]; [repeat constructor; exact Hc|].
  inversion IH; subst. constructor; [now constructor|assumption].
Qed.

Lemma split_on_keeps_Forall (P : code_unit -> Prop) (sep : code_unit)
      (s : jsstring) :
  Forall P s -> Forall (Forall P) (split_on sep s).
Proof.
  induction s as [|c s IH]; simpl; intros H; [repeat constructor|].
  inversion H; subst. specialize (IH H3).
  destruct (c =? sep)%N; [now constructor|].
  destruct (split_on sep s) as [|first rest]; [repeat constructor; assumption|].
  inversion IH; subst. constructor; [now constructor|assumption].
Qed.

Lemma field_Forall (P : code_unit -> Prop) (values : list jsstring) (j : nat) :
  Forall (Forall P) values -> Forall P (field values j).
Proof.
  intros H. unfold field. destruct (nth_error values j) as [v|] eqn:E;
    [|constructor].
  apply nth_error_In in E. rewrite Forall_forall in H. now apply H.
Qed.

Lemma set_own_property_value (r : CSVRow) (a x key v : jsstring) :
  own_property (set_own_property r a x) key = Some v ->
  v = x \/ own_property r key = Some v.
Proof.
  induction r as [|[k0 v0] r IH]; simpl.
  - destruct (jsstring_eqb a key); [|discriminate].
    intros H. inversion H. now left.
  - destruct (jsstring_eqb k0 a) eqn:E; simpl.
    + destruct (jsstring_eqb k0 key); [|now right].
      intros H. inversion H. now left.
    + destruct (jsstring_eqb k0 key); [now right|exact IH].
Qed.

Lemma fill_row_value (hs : list jsstring) (i : nat) (values : list jsstring)
      (r : CSVRow) (key v : jsstring) :
  own_property (fill_row hs i values r) key = Some v ->
  (exists j, v = field values j) \/ own_property r key = Some v.
Proof.
  revert i r. induction hs as [|a hs IH]; intros i r; simpl; [now right|].
  intros H. apply IH in H as [H|H]; [now left|].
  unfold assign in H. destruct (jsstring_eqb a (lit "__proto__")); [now right|].
  apply set_own_property_value in H as [->|H]; [left; now exists i|now right].
Qed.

Lemma parsed_values_are_fields (content : jsstring) (row : CSVRow)
      (key v : jsstring) :
  In row (parse_lines content) ->
  own_property row key = Some v ->
  Forall (fun c => c <> 10%N /\ c <> 44%N) v.
Proof.
  rewrite parse_lines_rows. intros Hrow Hv.
  apply in_map_iff in Hrow as (line & <- & Hline).
  apply fill_row_value in Hv as [[j ->]|Hv]; [|discriminate].
  assert (Hl : Forall (fun c => c <> 10%N) line).
  { pose proof (split_on_no_separator 10%N (trim content)) as H.
    destruct (split_on 10%N (trim content)) as [|l0 ls]; [destruct Hline|].
    inversion H; subst. simpl in Hline.
    rewrite Forall_forall in H3. now apply H3. }
  apply field_Forall. apply Forall_forall. intros piece Hp.
  apply in_map_iff in Hp as (raw & <- & Hraw).
  apply trim_keeps_Forall.
  pose proof (split_on_no_separator 44%N line) as H44.
  pose proof (split_on_keeps_Forall 44%N Hl) as H10.
  rewrite Forall_forall in H44, H10.
  specialize (H44 raw Hraw). specialize (H10 raw Hraw).
  rewrite Forall_forall in *. intros c Hc. split; auto.
Qed.

Lemma escape_quotes_Forall (P : code_unit -> Prop) (v : jsstring) :
  P 39%N -> Forall P v -> Forall P (escape_quotes v).
Proof.
  intros H39. induction 1 as [|c v Hc Hv IH]; simpl; [constructor|].
  destruct (c =? 39)%N; simpl; repeat constructor; assumption.
Qed.

(** X20. What is written for a column of a row read from a file holds no
    comma and no line feed: each value is one item of the [VALUES] list and
    stays on the line of its statement. *)
Theorem written_values_hold_no_separator (content : jsstring) (row : CSVRow)
        (col text : jsstring) :
  In row (parse_lines content) ->
  render_value (get row col) = Some text ->
  Forall (fun c => c <> 10%N /\ c <> 44%N) text.
Proof.
  intros Hrow. unfold get.
  destruct (own_property row col) as [v|] eqn:Ev.
  - pose proof (parsed_values_are_fields content row col Hrow Ev) as Hv.
    destruct v as [|c v].
    + intros H. inversion H. repeat constructor; discriminate.
    + unfold render_value.
      destruct (negb (isNaN (parseFloat (c :: v)))
                && isFinite (StringToNumber (c :: v)));
        intros H; inversion H; [exact Hv|].
      unfold sql_string_literal. apply Forall_app. split.
      * repeat constructor; discriminate.
      * apply Forall_app. split.
        -- apply escape_quotes_Forall; [split; discriminate|exact Hv].
        -- repeat constructor; discriminate.
  - destruct (existsb (jsstring_eqb col) Object_prototype_names);
      [discriminate|].
    intros H. inversion H. repeat constructor; discriminate.
Qed.




(* ================================================================== *)
(** ** Instances *)
(* ================================================================== *)

(** X2, at a preflight sent to the chat route. *)
Lemma preflight_to_the_chat_route :
  run (sample_service yankees_completion yankees_rows)
      (fetch sample_page sample_type_error preflight_request)
      sample_tables
  = {| outcome := Returned options_response;
       final := sample_tables;
       trace := [] |}.
Proof.
  exact (proj1 (@preflight_is_answered_without_calls
                  sample_page sample_type_error tables
                  (sample_service yankees_completion yankees_rows)
                  sample_tables preflight_request eq_refl)).
Defined.


(** X5, at a body that is not JSON: the answer carries the message of the
    parser's exception. *)
Lemma truncated_body_reports_the_parse_error :
  response_body (error_response (PStr (lit "Unexpected end of JSON input")))
  = Some (JSON_stringify
            (JObj [ (lit "success", JBool false);
                    (lit "error",
                     JStr (lit "Unexpected end of JSON input")) ])).
Proof.
  destruct (@server_error_reports_what_was_thrown
              sample_page sample_type_error tables
              (sample_service yankees_completion yankees_rows)
              sample_tables truncated_request
              (error_response (PStr (lit "Unexpected end of JSON input")))
              ltac:(vm_compute; reflexivity) eq_refl)
    as (message & [H|[[H _]|[[q H]|(q & raw & e & H & _)]]] & Hbody);
    try discriminate H.
  inversion H; subst message. exact Hbody.
Defined.

(** X9, at a fenced statement. *)
Lemma fenced_select_is_unwrapped :
  normalize_sql (fenced (lit "SELECT 1;")) = normalize_sql (lit "SELECT 1;").
Proof.
  apply fenced_completion_is_unwrapped.
  repeat (constructor; [discriminate|]). constructor.
Defined.

(** X11, at a row of two columns and its mirror image. *)
Lemma pitcher_summary_ignores_column_order :
  formatSimple [sample_pitcher] yankees_question
  = formatSimple [rev sample_pitcher] yankees_question.
Proof.
  apply one_row_summary_ignores_column_order.
  - apply perm_swap.
  - constructor; [intros [H|[]]; discriminate H|].
    constructor; [intros []|constructor].
  - apply le_n.
  - vm_compute. discriminate.
Defined.

(** X12, at a pitcher whose [ERA] is null. *)
Lemma null_ERA_is_printed_as_NaN :
  includes (formatSimple [sample_pitcher] yankees_question) (lit "ERA: NaN")
  = true.
Proof.
  apply (proj1 (@null_statistics_are_printed sample_pitcher yankees_question
                                              (le_n 2))).
  reflexivity.
Defined.

(** X13, at a name with an apostrophe, inside a statement. *)
Lemma quoted_name_reads_back :
  read_sql_string (sql_string_literal (lit "O'Neil") ++ lit ", NULL);")
  = Some (lit "O'Neil", lit ", NULL);").
Proof.
  apply sql_string_literal_reads_back.
  intros r H. discriminate H.
Defined.

(** X16, at the second column of the small file. *)
Lemma sample_file_nameLast :
  option_map (fun row => get row (lit "nameLast"))
             (nth_error (parse_lines sample_people_csv) 0)
  = Some (Own (lit "O'Neil")).
Proof.
  apply (@parsed_field_lookup sample_people_csv [lit "playerID"] []
                              (lit "nameLast") (lit "oneilpa01, O'Neil") 0%nat).
  - vm_compute. reflexivity.
  - intros [].
  - discriminate.
  - vm_compute. reflexivity.
Defined.

(** X17, at the small file. *)
Lemma sample_file_row_has_nameLast :
  (exists v, own_property sample_people_row (lit "nameLast") = Some v)
  <-> In (lit "nameLast") (header_names sample_people_csv)
      /\ lit "nameLast" <> lit "__proto__".
Proof.
  apply parsed_rows_have_the_header_columns.
  left. vm_compute. reflexivity.
Defined.

(** X19, at the small file, for a header and a column the file lacks. *)
Lemma sample_file_is_accepted :
  exists statements,
    generateInserts (lit "people") (parse_lines sample_people_csv)
                    [lit "playerID"; lit "nameFirst"]
    = Some statements
    /\ List.length statements = List.length (data_lines sample_people_csv).
Proof.
  apply generateInserts_accepts_parsed_rows.
  constructor.
  - left. split; [left; vm_compute; reflexivity|discriminate].
  - constructor; [right; reflexivity|constructor].
Defined.

(** X20, at the quoted name of the small file. *)
Lemma sample_file_value_holds_no_separator :
  Forall (fun c => c <> 10%N /\ c <> 44%N) (lit "'O''Neil'").
Proof.
  apply (@written_values_hold_no_separator
           sample_people_csv sample_people_row (lit "nameLast")).
  - left. vm_compute. reflexivity.
  - vm_compute. reflexivity.
Defined.

(** X22, at a request for the page. *)
Lemma page_carries_no_cross_origin_header :
  get_header (lit "Access-Control-Allow-Origin")
             (headers (html_response sample_page))
  = None.
Proof.
  apply (@cross_origin_header_on_api_only
           sample_page sample_type_error tables
           (sample_service yankees_completion yankees_rows)
           sample_tables page_request (html_response sample_page)).
  reflexivity.
Defined.

(** X23, at a second row without the first row's [toString] column. *)
Lemma inherited_toString_is_printed :
  exists lines cells,
    formatTable [ [(lit "toString", VNum (of_Z 1))];
                  [(lit "W", VNum (of_Z 94))] ]
    = join newline
        (join (lit " | ") [lit "toString"]
         :: join (lit " | ") [lit "---"]
         :: lines)
    /\ nth_error lines 1 = Some (join (lit " | ") cells)
    /\ nth_error cells 0
       = Some (lit "function toString() { [native code] }")
    /\ builtin_text (lit "toString")
       = lit "function toString() { [native code] }".
Proof.
  exact (@missing_column_cell
           [(lit "toString", VNum (of_Z 1))] [(lit "W", VNum (of_Z 94))]
           [ [(lit "W", VNum (of_Z 94))] ] 1 0 (lit "toString")
           eq_refl eq_refl eq_refl).
Defined.

(** Without a part the one-row summary is [JSON.stringify(row)], and the
    order of the columns shows. *)
Example one_row_without_parts_follows_column_order :
  summary_parts [ (lit "nameFirst", VStr (lit "Jacob"));
                  (lit "x", VNum (of_Z 1)) ] = []
  /\ formatSimple [ [ (lit "nameFirst", VStr (lit "Jacob"));
                      (lit "x", VNum (of_Z 1)) ] ] yankees_question
     <> formatSimple [ [ (lit "x", VNum (of_Z 1));
                         (lit "nameFirst", VStr (lit "Jacob")) ] ]
                     yankees_question.
Proof.
  split; [reflexivity|]. vm_compute. discriminate.
Qed.
